(** * Miller-Rabin primality test: a shallow embedding of [main.py]

    The three functions of the program, [is_prime_miller_rabin],
    [find_miller_rabin_r_s] and [miller_rabin_rand_test], are embedded as
    Rocq functions over [Z] (Python's unbounded [int]).

    - The [while] loops are written with an iteration budget ([fuel]); a
      loop that has not left within the budget answers [OutOfFuel].  The
      termination results below say which budget is enough.
    - The process-wide random generator is a tape of raw values together
      with the position of the next unread cell; [randrange] reads one cell.
      The position returned by a computation therefore counts the draws,
      and with them the witness trials, that the computation has made.
    - Exceptions of the built-ins used ([ValueError] of [randrange] on an
      empty range and of [pow] on a zero modulus) are an outcome of their
      own.
    - Probabilities are counts: [randrange(2, n - 1)] is uniform over its
      [n - 3] values, so [k] independent draws are a uniform choice among
      the [(n - 3) ^ k] sequences of raw draws ([draw_vectors]), and the
      probability of an answer is the fraction of the sequences that give
      it.

    The first part states and proves the properties of the program; the
    second part, the error bound on composites, carries the number theory
    it rests on: at most a quarter of the residues modulo an odd composite
    are strong liars. *)

From Stdlib Require Import ZArith Znumtheory Zdivisibility Zcong Lia Bool List.
From Stdlib Require Import Zmod.Zmod.
From Stdlib Require String DecimalString.
Import ListNotations.

#[local] Open Scope Z_scope.

(** ** Outcomes and the program monad *)

Inductive outcome (A : Type) : Type :=
| Ok (a : A)
| ValueError
| OutOfFuel.

Arguments Ok {A} a.
Arguments ValueError {A}.
Arguments OutOfFuel {A}.

(** A computation reads the generator from position [pos] on and, when it
    completes, gives its value and the position it has reached. *)
Definition M (A : Type) : Type := (nat -> Z) -> nat -> outcome (A * nat).

Definition ret {A} (a : A) : M A := fun _ pos => Ok (a, pos).

Definition bind {A B} (m : M A) (f : A -> M B) : M B :=
  fun tape pos =>
    match m tape pos with
    | Ok (a, pos') => f a tape pos'
    | ValueError => ValueError
    | OutOfFuel => OutOfFuel
    end.

Definition lift {A} (o : outcome A) : M A :=
  fun _ pos =>
    match o with
    | Ok a => Ok (a, pos)
    | ValueError => ValueError
    | OutOfFuel => OutOfFuel
    end.

Notation "x <- m ;; k" := (bind m (fun x => k))
  (at level 61, m at next level, right associativity).
Notation "' pat <- m ;; k" := (bind m (fun x => match x with pat => k end))
  (at level 61, pat pattern, m at next level, right associativity).

(** ** Built-ins *)

(** [random.randrange(start, stop)]: an element of [range(start, stop)]
    picked by the generator, [ValueError] when the range is empty. *)
Definition randrange (start stop : Z) : M Z :=
  fun tape pos =>
    if start <? stop
    then Ok (start + tape pos mod (stop - start), S pos)
    else ValueError.

(** [pow(b, e, m)]: modular exponentiation.  A zero modulus raises; the
    result has the sign of the modulus, as [%] does; a negative exponent
    goes through the inverse of the base, and raises when there is none. *)
Definition pow (b e m : Z) : outcome Z :=
  if m =? 0 then ValueError
  else if 0 <=? e then Ok (b ^ e mod m)
  else if Z.gcd b m =? 1 then Ok (Z.invmod b (Z.abs m) ^ (- e) mod m)
  else ValueError.

(** ** [find_miller_rabin_r_s] *)

(** The loop [while r & 1 == 0: s += 1; r //= 2] from state [(s, r)]. *)
Fixpoint find_miller_rabin_r_s_loop (fuel : nat) (s r : Z) : outcome (Z * Z) :=
  if Z.land r 1 =? 0 then
    match fuel with
    | O => OutOfFuel
    | S fuel' => find_miller_rabin_r_s_loop fuel' (s + 1) (r / 2)
    end
  else Ok (s, r).

Definition find_miller_rabin_r_s (fuel : nat) (n : Z) : outcome (Z * Z) :=
  find_miller_rabin_r_s_loop fuel 0 (n - 1).

(** ** [miller_rabin_rand_test] *)

(** How the inner [while] is left: by the [return False] inside its body,
    or through its guard, with the values of [j] and [x] at that point. *)
Inductive loop_exit : Type :=
| Return (b : bool)
| Fallthrough (j x : Z).

(** The loop
    [while j < s and x != n - 1: x = pow(x, 2, n); if x == 1: return False; j += 1]. *)
Fixpoint miller_rabin_rand_test_loop (fuel : nat) (n s j x : Z)
  : outcome loop_exit :=
  if (j <? s) && negb (x =? n - 1) then
    match fuel with
    | O => OutOfFuel
    | S fuel' =>
        match pow x 2 n with
        | Ok x' =>
            if x' =? 1 then Ok (Return false)
            else miller_rabin_rand_test_loop fuel' n s (j + 1) x'
        | ValueError => ValueError
        | OutOfFuel => OutOfFuel
        end
    end
  else Ok (Fallthrough j x).

(** The part of the test after the witness [a] has been drawn. *)
Definition miller_rabin_test_with (fuel : nat) (n s r a : Z) : outcome bool :=
  match pow a r n with
  | Ok x =>
      if negb (x =? 1) && negb (x =? n - 1) then
        match miller_rabin_rand_test_loop fuel n s 1 x with
        | Ok (Return b) => Ok b
        | Ok (Fallthrough _ x') =>
            if negb (x' =? n - 1) then Ok false else Ok true
        | ValueError => ValueError
        | OutOfFuel => OutOfFuel
        end
      else Ok true
  | ValueError => ValueError
  | OutOfFuel => OutOfFuel
  end.

Definition miller_rabin_rand_test (fuel : nat) (n s r : Z) : M bool :=
  a <- randrange 2 (n - 1) ;;
  lift (miller_rabin_test_with fuel n s r a).

(** ** [is_prime_miller_rabin] *)

(** The loop [for _ in range(k): if not miller_rabin_rand_test(n, s, r):
    return False] followed by [return True], with [count] iterations left. *)
Fixpoint is_prime_trials (fuel : nat) (count : nat) (n s r : Z) : M bool :=
  match count with
  | O => ret true
  | S count' =>
      ok <- miller_rabin_rand_test fuel n s r ;;
      if negb ok then ret false
      else is_prime_trials fuel count' n s r
  end.

(** [range(k)] has [k] elements, none when [k <= 0]. *)
Definition range_len (k : Z) : nat := Z.to_nat k.

Definition is_prime_miller_rabin (fuel : nat) (n k : Z) : M bool :=
  if (n =? 2) || (n =? 3) then ret true
  else if (n <=? 1) || (n mod 2 =? 0) then ret false
  else
    '(s, r) <- lift (find_miller_rabin_r_s fuel n) ;;
    is_prime_trials fuel (range_len k) n s r.

(** The default value of [k]. *)
Definition default_k : Z := 128.

(** ** Notions used to state the results *)

(** A budget that is enough for both loops on input [n]: the decomposer
    halves a value below [n], and the witness loop runs fewer than [s]
    times, with [2 ^ s <= n - 1]. *)
Definition enough_fuel (fuel : nat) (n : Z) : Prop :=
  Z.log2 n <= Z.of_nat fuel.

(** The witness that [miller_rabin_rand_test] draws for [n] when the
    generator is at position [pos]. *)
Definition witness_at (tape : nat -> Z) (pos : nat) (n : Z) : Z :=
  2 + tape pos mod (n - 1 - 2).

(** The trial as the specification words it.  Step 4 and 5: [count]
    squarings are left; a squaring that gives [1] answers [false], one
    that gives [n - 1] answers [true], and running out of squarings
    answers [false]. *)
Fixpoint spec_squarings (count : nat) (n x : Z) : bool :=
  match count with
  | O => false
  | S count' =>
      let x := x ^ 2 mod n in
      if x =? 1 then false
      else if x =? n - 1 then true
      else spec_squarings count' n x
  end.

(** Steps 2 to 5 for the witness [a]. *)
Definition spec_trial (n s r a : Z) : bool :=
  let x := a ^ r mod n in
  if (x =? 1) || (x =? n - 1) then true
  else spec_squarings (Z.to_nat (s - 1)) n x.

(** What the test answers once its inner loop is left. *)
Definition after_loop (n : Z) (e : loop_exit) : bool :=
  match e with
  | Return b => b
  | Fallthrough _ x => if negb (x =? n - 1) then false else true
  end.

(** The verdict of the witness test that is made with the generator at
    position [p]; a test that does not complete has none, and [false]
    stands in for it. *)
Definition trial_verdict (fuel : nat) (n s r : Z) (tape : nat -> Z) (p : nat)
  : bool :=
  match miller_rabin_rand_test fuel n s r tape p with
  | Ok (b, _) => b
  | _ => false
  end.

(** The primes of [do_basic_tests]. *)
Definition basic_primes : list Z :=
  [2; 3; 5; 7; 11; 13; 17; 19; 23; 53; 101; 131].

(** Primality of a concrete number by trial division, to name primes in
    examples. *)
Fixpoint no_divisor_from (d : Z) (count : nat) (p : Z) : bool :=
  match count with
  | O => true
  | S count' => negb (p mod d =? 0) && no_divisor_from (d + 1) count' p
  end.

Definition prime_by_division (p : Z) : bool :=
  (1 <? p) && no_divisor_from 2 (Z.to_nat (p - 2)) p.

(** ** Notions used for the error bound *)

Definition Zrange (lo : Z) (len : nat) : list Z :=
  map (fun i => lo + Z.of_nat i) (seq 0 len).

(** [g] and [h] have [E]-th powers that differ by more than a sign
    modulo [n]. *)
Definition separated (n E g h : Z) : Prop :=
  ~ (n | g ^ E - h ^ E) /\ ~ (n | g ^ E + h ^ E).

(** The residues [a * g] for [a] in [B]. *)
Definition translate (n g : Z) (B : list Z) : list Z :=
  map (fun a => (a * g) mod n) B.

(** The strong liars of [n] among [1 .. n - 1]. *)
Definition liars (n s d : Z) : list Z :=
  filter (spec_trial n s d) (Zrange 1 (Z.to_nat (n - 1))).

(** The monic polynomial with lower coefficients [cs], lowest first. *)
Fixpoint mval (cs : list Z) (x : Z) : Z :=
  match cs with
  | [] => 1
  | c :: cs' => c + x * mval cs' x
  end.

(** Its quotient by [x - r]. *)
Fixpoint mquot (cs : list Z) (r : Z) : list Z :=
  match cs with
  | [] => []
  | _ :: cs' =>
      match cs' with
      | [] => []
      | _ :: _ => mval cs' r :: mquot cs' r
      end
  end.

(** The cofactor of [a - b] in [a ^ k - b ^ k]. *)
Fixpoint geom (a b : Z) (k : nat) : Z :=
  match k with
  | O => 0
  | S k' => a * geom a b k' + b ^ Z.of_nat k'
  end.

(** The raw draws, among the [n - 3] possible ones, whose witness passes
    the trial. *)
Definition passes (n s d : Z) (e : Z) : bool := spec_trial n s d (2 + e).

Definition passing_draws (n s d : Z) : list Z :=
  filter (passes n s d) (Zrange 0 (Z.to_nat (n - 3))).

(** All sequences of [k] raw draws below [width]. *)
Fixpoint draw_vectors (width : Z) (k : nat) : list (list Z) :=
  match k with
  | O => [[]]
  | S k' =>
      flat_map (fun e => map (cons e) (draw_vectors width k'))
               (Zrange 0 (Z.to_nat width))
  end.

(** The generator that gives the draws [v], in this order. *)
Definition tape_of (v : list Z) : nat -> Z := fun i => nth i v 0.

(** The program answers [true] on the draws [v]. *)
Definition answers_true (fuel : nat) (n k : Z) (v : list Z) : bool :=
  match is_prime_miller_rabin fuel n k (tape_of v) 0%nat with
  | Ok (true, _) => true
  | _ => false
  end.

(** ** The self-test and the script *)

(** [do_basic_tests] and the [__main__] block call the test and [print].
    Their state is the position of the generator together with the lines
    written to the standard output. *)
Module Script.
Import String.
#[local] Open Scope string_scope.

Record world : Type := World { gen_pos : nat; stdout : list string }.

Definition IO (A : Type) : Type := (nat -> Z) -> world -> outcome (A * world).

Definition io_ret {A} (a : A) : IO A := fun _ w => Ok (a, w).

Definition io_bind {A B} (m : IO A) (f : A -> IO B) : IO B :=
  fun tape w =>
    match m tape w with
    | Ok (a, w') => f a tape w'
    | ValueError => ValueError
    | OutOfFuel => OutOfFuel
    end.

(** A computation on the generator alone leaves the output as it is. *)
Definition run {A} (m : M A) : IO A :=
  fun tape w =>
    match m tape (gen_pos w) with
    | Ok (a, pos') => Ok (a, World pos' (stdout w))
    | ValueError => ValueError
    | OutOfFuel => OutOfFuel
    end.

(** [print(line)]. *)
Definition print (line : string) : IO unit :=
  fun _ w => Ok (tt, World (gen_pos w) (List.app (stdout w) (line :: nil))).

(** [%d] and [%s] of an [int], and [%s] of a [bool]. *)
Definition show_int (n : Z) : string :=
  DecimalString.NilZero.string_of_int (Z.to_int n).

Definition show_bool (b : bool) : string := if b then "True" else "False".

Definition prime_message (p : Z) : string :=
  "Miller-Rabin algorithm implementation failed to detect "
  ++ show_int p ++ " as a prime".

Definition composite_message (c : Z) : string :=
  "Miller-Rabin algorithm implementation failed to detect "
  ++ show_int c ++ " as a composite".

Definition success_message : string :=
  "Miller-Rabin probability algorithm basic tests successful".

Definition number_message (n : Z) (b : bool) : string :=
  "Number " ++ show_int n ++ " is prime? " ++ show_bool b.

Definition basic_composites : list Z :=
  (4 :: 6 :: 8 :: 9 :: 10 :: 16 :: 85 :: 94 :: 124 :: 133 :: nil)%Z.

(** The loop [for prime in basic_primes]: [Some b] when its body has
    returned [b], [None] when the loop has run to its end. *)
Fixpoint check_primes (fuel : nat) (ps : list Z) : IO (option bool) :=
  match ps with
  | nil => io_ret None
  | p :: ps' =>
      io_bind (run (is_prime_miller_rabin fuel p default_k)) (fun ok =>
      if negb ok
      then io_bind (print (prime_message p)) (fun _ => io_ret (Some false))
      else check_primes fuel ps')
  end.

(** The loop [for composite in basic_composites]. *)
Fixpoint check_composites (fuel : nat) (cs : list Z) : IO (option bool) :=
  match cs with
  | nil => io_ret None
  | c :: cs' =>
      io_bind (run (is_prime_miller_rabin fuel c default_k)) (fun ok =>
      if ok
      then io_bind (print (composite_message c)) (fun _ => io_ret (Some false))
      else check_composites fuel cs')
  end.

(** The loop [for _ in range(10)] with [count] rounds left, and the
    [return True] after it. *)
Fixpoint rounds (fuel : nat) (count : nat) : IO bool :=
  match count with
  | O => io_ret true
  | S count' =>
      io_bind (check_primes fuel basic_primes) (fun returned =>
      match returned with
      | Some b => io_ret b
      | None =>
          io_bind (check_composites fuel basic_composites) (fun returned' =>
          match returned' with
          | Some b => io_ret b
          | None => rounds fuel count'
          end)
      end)
  end.

Definition do_basic_tests (fuel : nat) : IO bool := rounds fuel 10.

Definition belphegors_prime : Z := 1000000000000066600000000000001%Z.

(** The [__main__] block. *)
Definition main (fuel : nat) : IO unit :=
  io_bind (do_basic_tests fuel) (fun ok =>
  io_bind (if ok then print success_message else io_ret tt) (fun _ =>
  io_bind (run (is_prime_miller_rabin fuel belphegors_prime default_k)) (fun b =>
  print (number_message belphegors_prime b)))).

End Script.

(** ** Running the program on small inputs *)

Definition zero_tape : nat -> Z := fun _ => 0.

Example find_r_s_13 : find_miller_rabin_r_s 5 13 = Ok (2, 3).
Proof. reflexivity. Qed.

Example find_r_s_1_runs_out : find_miller_rabin_r_s 50 1 = OutOfFuel.
Proof. reflexivity. Qed.

Example is_prime_13 : is_prime_miller_rabin 5 13 4 zero_tape 0%nat = Ok (true, 4%nat).
Proof. reflexivity. Qed.

Example is_prime_9 : is_prime_miller_rabin 5 9 4 zero_tape 0%nat = Ok (false, 1%nat).
Proof. reflexivity. Qed.

Example is_prime_4 : is_prime_miller_rabin 0 4 4 zero_tape 7%nat = Ok (false, 7%nat).
Proof. reflexivity. Qed.

Example pow_negative_exponent : pow 2 (-1) 5 = Ok 3 /\ pow 2 (-1) 4 = ValueError.
Proof. split; reflexivity. Qed.

Example liars_25 : liars 25 3 3 = [1; 7; 18; 24].
Proof. reflexivity. Qed.

Example accepted_25 :
  length (filter (answers_true 5 25 2) (draw_vectors (25 - 3) 2)) = 4%nat
  /\ length (draw_vectors (25 - 3) 2) = 484%nat.
Proof. split; vm_compute; reflexivity. Qed.

(** ** The decomposer *)

Lemma land_1_mod_2 (r : Z) : Z.land r 1 = r mod 2.
Proof. exact (Z.land_ones r 1 ltac:(lia)). Qed.

Lemma find_loop_guard (r : Z) :
  (Z.land r 1 =? 0) = true <-> r mod 2 = 0.
Proof. rewrite land_1_mod_2, Z.eqb_eq. reflexivity. Qed.

(** Whatever the loop returns is a decomposition of its start value. *)
Lemma find_loop_sound (fuel : nat) :
  forall s r s' r',
    find_miller_rabin_r_s_loop fuel s r = Ok (s', r') ->
    s <= s' /\ r' * 2 ^ (s' - s) = r /\ r' mod 2 = 1.
Proof.
  induction fuel as [|fuel IH]; intros s r s' r'; cbn [find_miller_rabin_r_s_loop];
    destruct (Z.land r 1 =? 0) eqn:G; try discriminate.
  1,3: intros [= <- <-]; rewrite Z.sub_diag, Z.mul_1_r;
       assert (r mod 2 <> 0) by (rewrite <- find_loop_guard, G; discriminate);
       pose proof (Z.mod_pos_bound r 2); lia.
  intros H. apply IH in H. destruct H as (Hs & Hr & Ho).
  apply find_loop_guard in G.
  repeat split; [lia | | exact Ho].
  replace (s' - s) with (Z.succ (s' - (s + 1))) by lia.
  rewrite Z.pow_succ_r by lia.
  pose proof (Z.div_mod r 2 ltac:(lia)) as Hdm. rewrite G in Hdm.
  rewrite Hdm, Z.add_0_r, <- Hr. ring.
Qed.

(** The loop leaves once the budget exceeds the size of a non-zero start. *)
Lemma find_loop_terminates (fuel : nat) :
  forall s r, r <> 0 -> Z.log2 (Z.abs r) <= Z.of_nat fuel ->
    exists s' r', find_miller_rabin_r_s_loop fuel s r = Ok (s', r').
Proof.
  induction fuel as [|fuel IH]; intros s r Hr Hlog; cbn [find_miller_rabin_r_s_loop];
    destruct (Z.land r 1 =? 0) eqn:G; try (eexists; eexists; reflexivity);
    apply find_loop_guard in G;
    assert (Hhalf : r = 2 * (r / 2)) by (rewrite (Z.div_mod r 2) at 1 by lia; lia);
    assert (Habs : Z.abs r = 2 * Z.abs (r / 2)) by lia;
    assert (Hpos : 0 < Z.abs (r / 2)) by lia;
    pose proof (Z.log2_double (Z.abs (r / 2)) Hpos) as Hd;
    rewrite <- Habs in Hd;
    pose proof (Z.log2_nonneg (Z.abs (r / 2))).
  - lia.
  - apply IH; lia.
Qed.

(** On zero the guard holds for ever. *)
Lemma find_loop_zero_diverges (fuel : nat) :
  forall s, find_miller_rabin_r_s_loop fuel s 0 = OutOfFuel.
Proof.
  induction fuel as [|fuel IH]; intros s; cbn; [reflexivity | apply IH].
Qed.

(** A larger budget does not change a result. *)
Lemma find_loop_fuel_mono (fuel : nat) :
  forall fuel' s r v, (fuel <= fuel')%nat ->
    find_miller_rabin_r_s_loop fuel s r = Ok v ->
    find_miller_rabin_r_s_loop fuel' s r = Ok v.
Proof.
  induction fuel as [|fuel IH]; intros fuel' s r v Hle;
    destruct fuel' as [|fuel']; cbn [find_miller_rabin_r_s_loop];
    destruct (Z.land r 1 =? 0); try discriminate; try lia; auto.
  apply IH. lia.
Qed.

Lemma find_r_s_odd (fuel : nat) (n : Z) :
  n mod 2 = 1 -> 1 < n -> enough_fuel fuel n ->
  exists s r, find_miller_rabin_r_s fuel n = Ok (s, r)
    /\ r * 2 ^ s = n - 1 /\ r mod 2 = 1 /\ 1 <= s /\ 1 <= r.
Proof.
  intros Hodd Hn Hfuel. unfold find_miller_rabin_r_s.
  destruct (find_loop_terminates fuel 0 (n - 1)) as (s & r & E).
  - lia.
  - unfold enough_fuel in Hfuel.
    pose proof (Z.log2_le_mono (Z.abs (n - 1)) n ltac:(lia)). lia.
  - exists s, r. split; [exact E|].
    apply find_loop_sound in E. destruct E as (Hs & Hr & Ho).
    rewrite Z.sub_0_r in Hr.
    assert (s <> 0).
    { intros ->. rewrite Z.pow_0_r, Z.mul_1_r in Hr. subst r.
      rewrite <- Zminus_mod_idemp_l, Hodd in Ho. discriminate. }
    assert (0 < 2 ^ s) by (apply Z.pow_pos_nonneg; lia).
    repeat split; try assumption; nia.
Qed.

(** ** The witness test *)

Lemma pow_ok (b e m : Z) : m <> 0 -> 0 <= e -> pow b e m = Ok (b ^ e mod m).
Proof.
  intros Hm He. unfold pow.
  destruct (Z.eqb_spec m 0); [contradiction|].
  destruct (Z.leb_spec 0 e); [reflexivity | lia].
Qed.

Lemma test_loop_at_minus_one (fuel : nat) (n s j : Z) :
  miller_rabin_rand_test_loop fuel n s j (n - 1) = Ok (Fallthrough j (n - 1)).
Proof.
  destruct fuel; cbn [miller_rabin_rand_test_loop];
    rewrite Z.eqb_refl, andb_false_r; reflexivity.
Qed.

(** The inner loop, started away from [n - 1], does the squarings of the
    specification. *)
Lemma test_loop_refines (n s : Z) (fuel : nat) :
  n <> 0 ->
  forall j x, x <> n - 1 -> (Z.to_nat (s - j) <= fuel)%nat ->
    exists e, miller_rabin_rand_test_loop fuel n s j x = Ok e
      /\ after_loop n e = spec_squarings (Z.to_nat (s - j)) n x.
Proof.
  intros Hn. induction fuel as [|fuel IH]; intros j x Hx Hfuel;
    cbn [miller_rabin_rand_test_loop];
    (destruct (Z.ltb_spec j s) as [Hj|Hj]; cbn [andb];
     [ destruct (Z.eqb_spec x (n - 1)) as [|_]; [contradiction|]; cbn [negb]
     | exists (Fallthrough j x); split; [reflexivity|];
       replace (Z.to_nat (s - j)) with 0%nat by lia; cbn;
       destruct (Z.eqb_spec x (n - 1)); [contradiction | reflexivity] ]).
  - lia.
  - rewrite pow_ok by lia.
    replace (Z.to_nat (s - j)) with (S (Z.to_nat (s - (j + 1)))) by lia.
    cbn [spec_squarings].
    destruct (Z.eqb_spec (x ^ 2 mod n) 1) as [|_].
    + exists (Return false). split; reflexivity.
    + destruct (Z.eqb_spec (x ^ 2 mod n) (n - 1)) as [E|NE].
      * rewrite E, test_loop_at_minus_one. eexists; split; [reflexivity|].
        cbn. rewrite Z.eqb_refl. reflexivity.
      * apply IH; [exact NE | lia].
Qed.

(** The test on a given witness is the trial of the specification. *)
Lemma test_with_refines (fuel : nat) (n s r a : Z) :
  n <> 0 -> 0 <= r -> (Z.to_nat (s - 1) <= fuel)%nat ->
  miller_rabin_test_with fuel n s r a = Ok (spec_trial n s r a).
Proof.
  intros Hn Hr Hfuel. unfold miller_rabin_test_with, spec_trial.
  rewrite pow_ok by assumption. cbv zeta.
  destruct (Z.eqb_spec (a ^ r mod n) 1) as [|_]; [reflexivity|].
  destruct (Z.eqb_spec (a ^ r mod n) (n - 1)) as [|NE]; [reflexivity|].
  cbn [negb andb orb].
  destruct (test_loop_refines n s fuel Hn 1 (a ^ r mod n) NE Hfuel) as (e & -> & <-).
  destruct e as [b | j x]; cbn [after_loop]; [reflexivity|].
  destruct (negb (x =? n - 1)); reflexivity.
Qed.

Lemma rand_test_draws (fuel : nat) (n s r : Z) (tape : nat -> Z) (pos : nat) :
  3 < n ->
  miller_rabin_rand_test fuel n s r tape pos =
  match miller_rabin_test_with fuel n s r (witness_at tape pos n) with
  | Ok b => Ok (b, S pos)
  | ValueError => ValueError
  | OutOfFuel => OutOfFuel
  end.
Proof.
  intros Hn. unfold miller_rabin_rand_test, bind, randrange, lift, witness_at.
  destruct (Z.ltb_spec 2 (n - 1)); [|lia].
  destruct (miller_rabin_test_with _ _ _ _ _); reflexivity.
Qed.

Lemma witness_at_range (tape : nat -> Z) (pos : nat) (n : Z) :
  3 < n -> 2 <= witness_at tape pos n <= n - 2.
Proof.
  intros Hn. unfold witness_at.
  pose proof (Z.mod_pos_bound (tape pos) (n - 1 - 2) ltac:(lia)). lia.
Qed.

(** ** Trial division *)

Lemma no_divisor_from_sound (p : Z) (count : nat) :
  forall d, 0 < d -> no_divisor_from d count p = true ->
    forall m, d <= m < d + Z.of_nat count -> ~ (m | p).
Proof.
  induction count as [|count IH]; intros d Hd Hchk m Hm; [lia|].
  cbn [no_divisor_from] in Hchk. apply andb_prop in Hchk.
  destruct Hchk as [Hnd Hrest].
  destruct (Z.eq_dec m d) as [->|Hne].
  - intros Hdiv. apply Z.mod_divide in Hdiv; [|lia].
    rewrite Hdiv in Hnd. discriminate.
  - apply (IH (d + 1)); [lia | exact Hrest | lia].
Qed.

Lemma prime_by_division_sound (p : Z) :
  prime_by_division p = true -> Z.prime p.
Proof.
  unfold prime_by_division. intros H. apply andb_prop in H.
  destruct H as [Hp Hnd]. apply Z.ltb_lt in Hp.
  split; [exact Hp|]. intros m Hm.
  apply (no_divisor_from_sound p _ 2 ltac:(lia) Hnd). lia.
Qed.

(** ** Primes pass every trial *)

(** Modulo a prime, [1] has the two square roots [1] and [-1] only. *)
Lemma sqrt_one_mod_prime (n x : Z) :
  Z.prime n -> x ^ 2 mod n = 1 -> x mod n = 1 \/ x mod n = n - 1.
Proof.
  intros Hp Hsq. pose proof (Z.prime_ge_2 n Hp) as Hn.
  assert (Hd : (n | (x - 1) * (x + 1))).
  { apply Z.mod_divide; [lia|].
    replace ((x - 1) * (x + 1)) with (x ^ 2 - 1) by ring.
    rewrite Zminus_mod, Hsq, Z.mod_1_l by lia. reflexivity. }
  apply (Z.divide_prime_mul _ _ n Hp) in Hd.
  destruct Hd as [[q Hq] | [q Hq]].
  - left. replace x with (1 + q * n) by lia.
    rewrite Z.mod_add by lia. apply Z.mod_1_l; lia.
  - right. replace x with (n - 1 + (q - 1) * n) by lia.
    rewrite Z.mod_add by lia. apply Z.mod_small; lia.
Qed.

(** From a value that is neither [1] nor [-1] but whose
    [2 ^ (count + 1)]-th power is [1], the squarings reach [-1]. *)
Lemma spec_squarings_prime (n : Z) (count : nat) :
  Z.prime n ->
  forall x, x mod n <> 1 -> x mod n <> n - 1 ->
    x ^ (2 ^ Z.of_nat (S count)) mod n = 1 ->
    spec_squarings count n x = true.
Proof.
  intros Hp. pose proof (Z.prime_ge_2 n Hp) as Hn.
  induction count as [|count IH]; intros x H1 Hm1 Hpow.
  - exfalso. change (2 ^ Z.of_nat 1) with 2 in Hpow.
    destruct (sqrt_one_mod_prime n x Hp Hpow); contradiction.
  - cbn [spec_squarings].
    assert (Hpow' : (x ^ 2 mod n) ^ (2 ^ Z.of_nat (S count)) mod n = 1).
    { rewrite Z.mod_pow_l, <- Z.pow_mul_r by lia.
      rewrite <- Hpow. f_equal. f_equal.
      rewrite (Nat2Z.inj_succ (S count)), Z.pow_succ_r by lia. reflexivity. }
    destruct (Z.eqb_spec (x ^ 2 mod n) 1) as [E|NE].
    + destruct (sqrt_one_mod_prime n x Hp E); contradiction.
    + destruct (Z.eqb_spec (x ^ 2 mod n) (n - 1)) as [|NE']; [reflexivity|].
      apply IH; rewrite ?Z.mod_mod by lia; assumption.
Qed.

(** Every witness that is not a multiple of a prime [n] passes. *)
Lemma spec_trial_prime (n s r a : Z) :
  Z.prime n -> 1 <= s -> 0 <= r -> r * 2 ^ s = n - 1 -> a mod n <> 0 ->
  spec_trial n s r a = true.
Proof.
  intros Hp Hs Hr Hdec Ha. pose proof (Z.prime_ge_2 n Hp) as Hn.
  unfold spec_trial. cbv zeta.
  destruct (Z.eqb_spec (a ^ r mod n) 1) as [|N1]; [reflexivity|].
  destruct (Z.eqb_spec (a ^ r mod n) (n - 1)) as [|Nm1]; [reflexivity|].
  cbn [orb]. apply spec_squarings_prime; rewrite ?Z.mod_mod by lia; trivial.
  replace (Z.of_nat (S (Z.to_nat (s - 1)))) with s by lia.
  rewrite Z.mod_pow_l, <- Z.pow_mul_r, Hdec by (try apply Z.pow_nonneg; lia).
  apply Z.fermat_nz; assumption.
Qed.

(** ** Budgets *)

Lemma enough_fuel_inner (fuel : nat) (n s r : Z) :
  enough_fuel fuel n -> 1 <= r -> 0 <= s -> r * 2 ^ s = n - 1 ->
  (Z.to_nat (s - 1) <= fuel)%nat.
Proof.
  unfold enough_fuel. intros Hf Hr Hs Hdec.
  assert (0 < 2 ^ s) by (apply Z.pow_pos_nonneg; lia).
  assert (Hle : 2 ^ s <= n) by nia.
  apply Z.log2_le_pow2 in Hle; lia.
Qed.

Lemma enough_fuel_le (fuel fuel' : nat) (n : Z) :
  enough_fuel fuel n -> (fuel <= fuel')%nat -> enough_fuel fuel' n.
Proof. unfold enough_fuel. lia. Qed.

Lemma test_loop_fuel_mono (n s : Z) (fuel : nat) :
  forall fuel' j x e, (fuel <= fuel')%nat ->
    miller_rabin_rand_test_loop fuel n s j x = Ok e ->
    miller_rabin_rand_test_loop fuel' n s j x = Ok e.
Proof.
  induction fuel as [|fuel IH]; intros fuel' j x e Hle;
    destruct fuel' as [|fuel']; cbn [miller_rabin_rand_test_loop];
    destruct ((j <? s) && negb (x =? n - 1)); try discriminate; try lia; auto.
  destruct (pow x 2 n) as [x'| |]; try discriminate.
  destruct (x' =? 1); [auto|]. apply IH. lia.
Qed.

Lemma test_with_fuel_mono (fuel fuel' : nat) (n s r a : Z) (b : bool) :
  (fuel <= fuel')%nat ->
  miller_rabin_test_with fuel n s r a = Ok b ->
  miller_rabin_test_with fuel' n s r a = Ok b.
Proof.
  intros Hle. unfold miller_rabin_test_with.
  destruct (pow a r n) as [x| |]; try discriminate.
  destruct (negb (x =? 1) && negb (x =? n - 1)); [|auto].
  destruct (miller_rabin_rand_test_loop fuel n s 1 x) as [e| |] eqn:E;
    try discriminate.
  rewrite (test_loop_fuel_mono n s fuel fuel' 1 x e Hle E). auto.
Qed.

Lemma rand_test_fuel_mono (fuel fuel' : nat) (n s r : Z) tape pos v :
  (fuel <= fuel')%nat ->
  miller_rabin_rand_test fuel n s r tape pos = Ok v ->
  miller_rabin_rand_test fuel' n s r tape pos = Ok v.
Proof.
  intros Hle. unfold miller_rabin_rand_test, bind, randrange, lift.
  destruct (2 <? n - 1); try discriminate.
  destruct (miller_rabin_test_with fuel n s r _) as [b| |] eqn:E;
    try discriminate.
  rewrite (test_with_fuel_mono fuel fuel' n s r _ b Hle E). auto.
Qed.

Lemma trials_fuel_mono (fuel fuel' : nat) (n s r : Z) tape (count : nat) :
  (fuel <= fuel')%nat ->
  forall pos v,
    is_prime_trials fuel count n s r tape pos = Ok v ->
    is_prime_trials fuel' count n s r tape pos = Ok v.
Proof.
  intros Hle. induction count as [|count IH]; intros pos v;
    cbn [is_prime_trials]; [auto|].
  unfold bind.
  destruct (miller_rabin_rand_test fuel n s r tape pos) as [[b p]| |] eqn:E;
    try discriminate.
  rewrite (rand_test_fuel_mono fuel fuel' n s r tape pos _ Hle E).
  destruct (negb b); [auto | apply IH].
Qed.

Lemma is_prime_fuel_mono (fuel fuel' : nat) (n k : Z) tape pos v :
  (fuel <= fuel')%nat ->
  is_prime_miller_rabin fuel n k tape pos = Ok v ->
  is_prime_miller_rabin fuel' n k tape pos = Ok v.
Proof.
  intros Hle. unfold is_prime_miller_rabin.
  destruct ((n =? 2) || (n =? 3)); [auto|].
  destruct ((n <=? 1) || (n mod 2 =? 0)); [auto|].
  unfold bind, lift, find_miller_rabin_r_s.
  destruct (find_miller_rabin_r_s_loop fuel 0 (n - 1)) as [[s r]| |] eqn:E;
    try discriminate.
  rewrite (find_loop_fuel_mono fuel fuel' 0 (n - 1) _ Hle E).
  apply trials_fuel_mono. exact Hle.
Qed.

(** ** The trial loop *)

Section Trials.
Variables (fuel : nat) (n s r : Z) (tape : nat -> Z).
Hypothesis completes :
  forall p, miller_rabin_rand_test fuel n s r tape p
            = Ok (trial_verdict fuel n s r tape p, S p).

Let verdict := trial_verdict fuel n s r tape.

Lemma trials_all_true (count : nat) :
  forall pos,
    (forall i, (i < count)%nat -> verdict (pos + i)%nat = true) ->
    is_prime_trials fuel count n s r tape pos = Ok (true, (pos + count)%nat).
Proof.
  induction count as [|count IH]; intros pos Hall; cbn [is_prime_trials].
  - unfold ret. rewrite Nat.add_0_r. reflexivity.
  - unfold bind. rewrite completes.
    pose proof (Hall 0%nat ltac:(lia)) as H0. rewrite Nat.add_0_r in H0.
    fold verdict. rewrite H0. cbn [negb].
    rewrite IH.
    + f_equal. f_equal. lia.
    + intros i Hi. replace (S pos + i)%nat with (pos + S i)%nat by lia.
      apply Hall. lia.
Qed.

Lemma trials_first_false (count : nat) :
  forall pos i,
    (i < count)%nat ->
    (forall j, (j < i)%nat -> verdict (pos + j)%nat = true) ->
    verdict (pos + i)%nat = false ->
    is_prime_trials fuel count n s r tape pos = Ok (false, S (pos + i)).
Proof.
  induction count as [|count IH]; intros pos i Hi Hbefore Hfalse; [lia|].
  cbn [is_prime_trials]. unfold bind. rewrite completes. fold verdict.
  destruct i as [|i].
  - rewrite Nat.add_0_r in *. rewrite Hfalse. reflexivity.
  - pose proof (Hbefore 0%nat ltac:(lia)) as H0. rewrite Nat.add_0_r in H0.
    rewrite H0. cbn [negb].
    rewrite (IH (S pos) i); [f_equal; f_equal; lia | lia | |].
    + intros j Hj. replace (S pos + j)%nat with (pos + S j)%nat by lia.
      apply Hbefore. lia.
    + replace (S pos + i)%nat with (pos + S i)%nat by lia. exact Hfalse.
Qed.

(** Either all of the first [count] verdicts from [pos] on are [true], or
    there is a first [false] one. *)
Lemma verdicts_cases (count pos : nat) :
  (forall i, (i < count)%nat -> verdict (pos + i)%nat = true)
  \/ exists i, (i < count)%nat
       /\ (forall j, (j < i)%nat -> verdict (pos + j)%nat = true)
       /\ verdict (pos + i)%nat = false.
Proof.
  induction count as [|count [IH | (i & Hi & Hb & Hf)]].
  - left. intros i Hi. lia.
  - destruct (verdict (pos + count)%nat) eqn:E.
    + left. intros i Hi. destruct (Nat.eq_dec i count) as [->|]; [exact E|].
      apply IH. lia.
    + right. exists count. auto.
  - right. exists i. split; [lia | auto].
Qed.
End Trials.

(** ** The witness test inside [is_prime_miller_rabin] *)

Lemma rand_test_completes (fuel : nat) (n s r : Z) tape (p : nat) :
  3 < n -> 0 <= r -> (Z.to_nat (s - 1) <= fuel)%nat ->
  miller_rabin_rand_test fuel n s r tape p
  = Ok (spec_trial n s r (witness_at tape p n), S p).
Proof.
  intros Hn Hr Hfuel.
  rewrite rand_test_draws, test_with_refines by lia. reflexivity.
Qed.

Lemma trial_verdict_spec (fuel : nat) (n s r : Z) tape (p : nat) :
  3 < n -> 0 <= r -> (Z.to_nat (s - 1) <= fuel)%nat ->
  trial_verdict fuel n s r tape p = spec_trial n s r (witness_at tape p n).
Proof.
  intros Hn Hr Hfuel. unfold trial_verdict.
  rewrite rand_test_completes by assumption. reflexivity.
Qed.

Lemma rand_test_verdict (fuel : nat) (n s r : Z) tape (p : nat) :
  3 < n -> 0 <= r -> (Z.to_nat (s - 1) <= fuel)%nat ->
  miller_rabin_rand_test fuel n s r tape p
  = Ok (trial_verdict fuel n s r tape p, S p).
Proof.
  intros Hn Hr Hfuel.
  rewrite trial_verdict_spec by assumption.
  apply rand_test_completes; assumption.
Qed.

(** Past the fast path the program is the decomposer followed by the
    trial loop. *)
Lemma is_prime_slow_path (fuel : nat) (n k : Z) tape pos :
  n mod 2 = 1 -> 3 < n ->
  is_prime_miller_rabin fuel n k tape pos
  = ('(s, r) <- lift (find_miller_rabin_r_s fuel n) ;;
     is_prime_trials fuel (range_len k) n s r) tape pos.
Proof.
  intros Hodd Hn. unfold is_prime_miller_rabin.
  destruct (Z.eqb_spec n 2); [lia|]. destruct (Z.eqb_spec n 3); [lia|].
  destruct (Z.leb_spec n 1); [lia|].
  destruct (Z.eqb_spec (n mod 2) 0); [lia|]. reflexivity.
Qed.

(** On the fast path neither the budget nor the generator is touched. *)
Lemma is_prime_fast_path (fuel : nat) (n k : Z) tape pos :
  ~ (n mod 2 = 1 /\ 3 < n) ->
  is_prime_miller_rabin fuel n k tape pos = Ok ((n =? 2) || (n =? 3), pos).
Proof.
  intros Hnot. unfold is_prime_miller_rabin.
  destruct (Z.eqb_spec n 2); [reflexivity|].
  destruct (Z.eqb_spec n 3); [reflexivity|]. cbn [orb].
  destruct (Z.leb_spec n 1); [reflexivity|].
  destruct (Z.eqb_spec (n mod 2) 0); [reflexivity|].
  pose proof (Z.mod_pos_bound n 2). lia.
Qed.

Lemma is_prime_after_decomposition (fuel : nat) (n k : Z) tape pos :
  n mod 2 = 1 -> 3 < n -> enough_fuel fuel n ->
  exists s r,
    find_miller_rabin_r_s fuel n = Ok (s, r)
    /\ r * 2 ^ s = n - 1 /\ r mod 2 = 1 /\ 1 <= s /\ 1 <= r
    /\ (Z.to_nat (s - 1) <= fuel)%nat
    /\ is_prime_miller_rabin fuel n k tape pos
       = is_prime_trials fuel (range_len k) n s r tape pos.
Proof.
  intros Hodd Hn Hfuel.
  destruct (find_r_s_odd fuel n Hodd ltac:(lia) Hfuel)
    as (s & r & E & Hdec & Hr & Hs & Hr1).
  exists s, r. repeat split; try assumption.
  - apply (enough_fuel_inner fuel n s r); trivial; lia.
  - rewrite is_prime_slow_path by assumption.
    unfold bind, lift. rewrite E. reflexivity.
Qed.

Lemma prime_odd_or_small (n : Z) :
  Z.prime n -> n = 2 \/ n = 3 \/ (n mod 2 = 1 /\ 3 < n).
Proof.
  intros [Hn Hp].
  destruct (Z.eq_dec n 2); [auto|]. destruct (Z.eq_dec n 3); [auto|].
  right; right.
  pose proof (Z.mod_pos_bound n 2 ltac:(lia)).
  destruct (Z.eq_dec (n mod 2) 0) as [E|NE].
  - exfalso. apply (Hp 2); [lia|]. apply Z.mod_divide; lia.
  - split; [lia|].
    destruct (Z.eq_dec n 4) as [->|]; [exfalso; apply NE; reflexivity | lia].
Qed.

(** On a prime the program answers [true] whatever the generator gives:
    after no draw on [2] and [3], after [k] draws on the others. *)
Lemma is_prime_on_prime (fuel : nat) (n k : Z) tape pos :
  Z.prime n -> enough_fuel fuel n ->
  is_prime_miller_rabin fuel n k tape pos
  = Ok (true, (pos + (if (n <=? 3)%Z then 0 else range_len k))%nat).
Proof.
  intros Hp Hfuel.
  destruct (prime_odd_or_small n Hp) as [-> | [-> | [Hodd Hn]]].
  - cbn. rewrite Nat.add_0_r. reflexivity.
  - cbn. rewrite Nat.add_0_r. reflexivity.
  - destruct (is_prime_after_decomposition fuel n k tape pos Hodd Hn Hfuel)
      as (s & r & _ & Hdec & _ & Hs & Hr & Hin & ->).
    destruct (Z.leb_spec n 3); [lia|].
    apply trials_all_true.
    + intros p. apply rand_test_verdict; trivial; lia.
    + intros i _. rewrite trial_verdict_spec by (trivial; lia).
      apply spec_trial_prime; trivial; try lia.
      pose proof (witness_at_range tape (pos + i) n Hn).
      rewrite Z.mod_small; lia.
Qed.

(** ** The decomposer: round trip *)

(** C3: for every odd [n > 1] the decomposer returns, on every budget that
    is enough for [n], one pair [(s, r)] with [r * 2 ^ s = n - 1], [r] odd
    and [s >= 1], and [s] is the 2-adic valuation of [n - 1]: [2 ^ s]
    divides [n - 1] and [2 ^ (s + 1)] does not. *)
Theorem find_r_s_round_trip (n : Z) :
  n mod 2 = 1 -> 1 < n ->
  exists s r,
    (forall fuel, enough_fuel fuel n -> find_miller_rabin_r_s fuel n = Ok (s, r))
    /\ r * 2 ^ s = n - 1
    /\ r mod 2 = 1
    /\ 1 <= s
    /\ (2 ^ s | n - 1) /\ ~ (2 ^ (s + 1) | n - 1).
Proof.
  intros Hodd Hn.
  set (fuel0 := Z.to_nat (Z.log2 n)).
  assert (H0 : enough_fuel fuel0 n).
  { unfold enough_fuel, fuel0. pose proof (Z.log2_nonneg n). lia. }
  destruct (find_r_s_odd fuel0 n Hodd Hn H0) as (s & r & E & Hdec & Hr & Hs & Hr1).
  exists s, r. repeat split; trivial.
  - intros fuel Hfuel. unfold find_miller_rabin_r_s in *.
    apply (find_loop_fuel_mono fuel0); [|exact E].
    unfold enough_fuel in Hfuel. unfold fuel0. lia.
  - exists r. symmetry. exact Hdec.
  - intros [q Hq]. rewrite Z.pow_add_r, Z.pow_1_r in Hq by lia.
    assert (0 < 2 ^ s) by (apply Z.pow_pos_nonneg; lia).
    assert (r = 2 * q) by nia.
    subst r. rewrite Z.mul_comm, Z.mod_mul in Hr by lia. discriminate.
Qed.

Lemma find_r_s_round_trip_witness :
  exists s r,
    (forall fuel, enough_fuel fuel 13 -> find_miller_rabin_r_s fuel 13 = Ok (s, r))
    /\ r * 2 ^ s = 13 - 1
    /\ r mod 2 = 1
    /\ 1 <= s
    /\ (2 ^ s | 13 - 1) /\ ~ (2 ^ (s + 1) | 13 - 1).
Proof. apply (find_r_s_round_trip 13); [reflexivity | lia]. Defined.

(** ** The witness test: refinement of the specification *)

(** C2: for [n] odd and above [3], a decomposition [n - 1 = r * 2 ^ s] with
    [r] odd, and a budget that covers the [s - 1] squarings, the witness
    test draws one witness [a] in [[2, n - 2]] and answers what the trial
    of the specification answers for it: [true] when [x = a ^ r mod n] is
    [1] or [n - 1]; otherwise up to [s - 1] squarings, [false] at once on a
    squaring that gives [1], [true] on one that gives [n - 1], and [false]
    when the squarings are used up. *)
Theorem rand_test_refines_spec (fuel : nat) (n s r : Z) tape (pos : nat) :
  n mod 2 = 1 -> 3 < n -> r * 2 ^ s = n - 1 -> r mod 2 = 1 ->
  (Z.to_nat (s - 1) <= fuel)%nat ->
  let a := witness_at tape pos n in
  2 <= a <= n - 2
  /\ miller_rabin_test_with fuel n s r a = Ok (spec_trial n s r a)
  /\ miller_rabin_rand_test fuel n s r tape pos = Ok (spec_trial n s r a, S pos).
Proof.
  intros Hodd Hn Hdec Hr Hfuel a.
  assert (0 <= r).
  { destruct (Z.lt_ge_cases s 0) as [Hs|Hs].
    - rewrite Z.pow_neg_r in Hdec by assumption. lia.
    - assert (0 < 2 ^ s) by (apply Z.pow_pos_nonneg; lia). nia. }
  split; [apply witness_at_range; assumption|].
  split; [apply test_with_refines; trivial; lia|].
  apply rand_test_completes; assumption.
Qed.

Lemma rand_test_refines_spec_witness :
  let a := witness_at zero_tape 0%nat 13 in
  2 <= a <= 13 - 2
  /\ miller_rabin_test_with 1%nat 13 2 3 a = Ok (spec_trial 13 2 3 a)
  /\ miller_rabin_rand_test 1%nat 13 2 3 zero_tape 0%nat
     = Ok (spec_trial 13 2 3 a, 1%nat).
Proof.
  apply (rand_test_refines_spec 1%nat 13 2 3 zero_tape 0%nat);
    [reflexivity | lia | reflexivity | reflexivity | cbn; lia].
Defined.

(** ** Verdicts on primes *)

(** C4: on a prime [n], for every [k], every state of the generator and
    every budget that is enough, the program answers [true]; no witness
    test is made on [2] and [3], and all [k] of them pass on the others. *)
Theorem prime_always_true (fuel : nat) (n k : Z) tape (pos : nat) :
  Z.prime n -> enough_fuel fuel n ->
  is_prime_miller_rabin fuel n k tape pos
  = Ok (true, (pos + (if (n <=? 3)%Z then 0 else range_len k))%nat).
Proof. apply is_prime_on_prime. Qed.

Lemma prime_always_true_witness :
  is_prime_miller_rabin 5%nat 13 4 zero_tape 0%nat
  = Ok (true, (0 + (if (13 <=? 3)%Z then 0 else range_len 4))%nat).
Proof.
  apply (prime_always_true 5%nat 13 4 zero_tape 0%nat);
    [apply prime_by_division_sound; reflexivity | unfold enough_fuel; cbn; lia].
Defined.

(** C1: a [false] answer is definitive: whatever the budget, the trial
    count and the generator, when the program answers [false] its input
    is not a prime. *)
Theorem false_verdict_sound (fuel : nat) (n k : Z) tape (pos pos' : nat) :
  is_prime_miller_rabin fuel n k tape pos = Ok (false, pos') ->
  ~ Z.prime n.
Proof.
  intros Hfalse Hp.
  set (fuel' := Nat.max fuel (Z.to_nat (Z.log2 n))).
  apply (is_prime_fuel_mono fuel fuel') in Hfalse; [|unfold fuel'; lia].
  rewrite is_prime_on_prime in Hfalse; [discriminate | exact Hp |].
  unfold enough_fuel, fuel'. pose proof (Z.log2_nonneg n). lia.
Qed.

Lemma false_verdict_sound_witness :
  is_prime_miller_rabin 5%nat 9 4 zero_tape 0%nat = Ok (false, 1%nat)
  /\ ~ Z.prime 9.
Proof.
  split; [reflexivity|].
  apply (false_verdict_sound 5%nat 9 4 zero_tape 0%nat 1%nat). reflexivity.
Defined.

(** C5: on each of the primes of the basic tests, with the default trial
    count, the program answers [true] for every state of the generator,
    hence on every one of a series of calls; on [2] and [3] it does so
    without a loop iteration and without a draw, for every trial count. *)
Theorem basic_primes_true (n : Z) (fuel : nat) tape (pos : nat) :
  In n basic_primes -> (7 <= fuel)%nat ->
  (exists pos', is_prime_miller_rabin fuel n default_k tape pos = Ok (true, pos'))
  /\ (forall k, is_prime_miller_rabin 0 2 k tape pos = Ok (true, pos))
  /\ (forall k, is_prime_miller_rabin 0 3 k tape pos = Ok (true, pos)).
Proof.
  intros Hin Hfuel. split; [|split; reflexivity].
  eexists. apply is_prime_on_prime.
  - apply prime_by_division_sound.
    cbn in Hin.
    repeat (destruct Hin as [<- | Hin]; [vm_compute; reflexivity|]).
    contradiction.
  - unfold enough_fuel. cbn in Hin.
    repeat (destruct Hin as [<- | Hin]; [cbn; lia|]).
    contradiction.
Qed.

Lemma basic_primes_true_witness :
  (exists pos', is_prime_miller_rabin 7 131 default_k zero_tape 0%nat
                = Ok (true, pos'))
  /\ (forall k, is_prime_miller_rabin 0 2 k zero_tape 0%nat = Ok (true, 0%nat))
  /\ (forall k, is_prime_miller_rabin 0 3 k zero_tape 0%nat = Ok (true, 0%nat)).
Proof.
  apply (basic_primes_true 131 7%nat zero_tape 0%nat);
    [cbn; tauto | apply le_n].
Defined.

(** ** The fast path *)

(** C6: on every even [n > 2] and on every [n <= 1], for every trial
    count, the program answers [false] on any budget, the empty one
    included, and leaves the generator where it was: the answer comes
    before the decomposer and before any witness test. *)
Theorem fast_path_false (fuel : nat) (n k : Z) tape (pos : nat) :
  n <= 1 \/ (2 < n /\ n mod 2 = 0) ->
  is_prime_miller_rabin fuel n k tape pos = Ok (false, pos)
  /\ is_prime_miller_rabin 0 n k tape pos = Ok (false, pos).
Proof.
  intros H.
  assert (Hfast : ~ (n mod 2 = 1 /\ 3 < n)) by lia.
  rewrite !is_prime_fast_path by exact Hfast.
  destruct (Z.eqb_spec n 2); [lia|]. destruct (Z.eqb_spec n 3); [|auto].
  subst n. destruct H as [H | [_ H]]; [lia | discriminate].
Qed.

Lemma fast_path_false_witness :
  is_prime_miller_rabin 3 (-7) 128 zero_tape 2%nat = Ok (false, 2%nat)
  /\ is_prime_miller_rabin 0 (-7) 128 zero_tape 2%nat = Ok (false, 2%nat).
Proof. apply (fast_path_false 3%nat (-7) 128 zero_tape 2%nat). left. lia. Defined.

(** ** The trials *)

(** C7: for [n] odd and above [3] and [k >= 1], the program runs the
    witness test on the decomposition of [n]; the [i]-th test is made at
    position [pos + i] of the generator, so on a witness drawn for it
    alone.  Some number [ran] of tests between [1] and [k] is run: all but
    the last of them answer [true], the answer of the program is the
    answer of the last one, and an answer [true] of the last one means
    that all [k] were run.  So the first [false] ends the run with
    [false], and the program answers [true] exactly when all [k] tests
    answer [true]. *)
Theorem trial_orchestration (fuel : nat) (n k : Z) tape (pos : nat) :
  n mod 2 = 1 -> 3 < n -> 1 <= k -> enough_fuel fuel n ->
  exists s r,
    find_miller_rabin_r_s fuel n = Ok (s, r)
    /\ (forall p, miller_rabin_rand_test fuel n s r tape p
                  = Ok (trial_verdict fuel n s r tape p, S p))
    /\ (forall p, trial_verdict fuel n s r tape p
                  = spec_trial n s r (witness_at tape p n))
    /\ (exists ran : nat,
          (1 <= ran <= range_len k)%nat
          /\ (forall i, (i + 1 < ran)%nat ->
                trial_verdict fuel n s r tape (pos + i) = true)
          /\ is_prime_miller_rabin fuel n k tape pos
             = Ok (trial_verdict fuel n s r tape (pos + (ran - 1)),
                   (pos + ran)%nat)
          /\ (trial_verdict fuel n s r tape (pos + (ran - 1)) = true ->
              ran = range_len k))
    /\ ((exists pos', is_prime_miller_rabin fuel n k tape pos = Ok (true, pos'))
        <-> (forall i, (i < range_len k)%nat ->
               trial_verdict fuel n s r tape (pos + i) = true)).
Proof.
  intros Hodd Hn Hk Hfuel.
  destruct (is_prime_after_decomposition fuel n k tape pos Hodd Hn Hfuel)
    as (s & r & E & Hdec & _ & Hs & Hr & Hin & ->).
  exists s, r.
  assert (Hc : forall p, miller_rabin_rand_test fuel n s r tape p
                         = Ok (trial_verdict fuel n s r tape p, S p))
    by (intros p; apply rand_test_verdict; trivial; lia).
  assert (Hlen : (1 <= range_len k)%nat) by (unfold range_len; lia).
  split; [exact E|]. split; [exact Hc|].
  split; [intros p; apply trial_verdict_spec; trivial; lia|].
  destruct (verdicts_cases fuel n s r tape (range_len k) pos)
    as [Hall | (i & Hi & Hbefore & Hfalse)].
  - rewrite (trials_all_true fuel n s r tape Hc _ pos Hall). split.
    + exists (range_len k). repeat split; try lia.
      * intros i Hi. apply Hall. lia.
      * rewrite Hall by lia. f_equal.
    + split; [intros _; exact Hall | intros _; eexists; reflexivity].
  - rewrite (trials_first_false fuel n s r tape Hc _ pos i Hi Hbefore Hfalse).
    split.
    + exists (S i). replace (S i - 1)%nat with i by lia. repeat split; try lia.
      * intros j Hj. apply Hbefore. lia.
      * rewrite Hfalse. f_equal. f_equal. lia.
      * rewrite Hfalse. discriminate.
    + split; [intros [pos' [=]] | intros Hall; rewrite Hall in Hfalse by lia;
                                   discriminate].
Qed.

Lemma trial_orchestration_witness :
  exists s r,
    find_miller_rabin_r_s 4 9 = Ok (s, r)
    /\ (forall p, miller_rabin_rand_test 4 9 s r zero_tape p
                  = Ok (trial_verdict 4 9 s r zero_tape p, S p))
    /\ (forall p, trial_verdict 4 9 s r zero_tape p
                  = spec_trial 9 s r (witness_at zero_tape p 9))
    /\ (exists ran : nat,
          (1 <= ran <= range_len 3)%nat
          /\ (forall i, (i + 1 < ran)%nat ->
                trial_verdict 4 9 s r zero_tape (0 + i) = true)
          /\ is_prime_miller_rabin 4 9 3 zero_tape 0%nat
             = Ok (trial_verdict 4 9 s r zero_tape (0 + (ran - 1)),
                   (0 + ran)%nat)
          /\ (trial_verdict 4 9 s r zero_tape (0 + (ran - 1)) = true ->
              ran = range_len 3))
    /\ ((exists pos', is_prime_miller_rabin 4 9 3 zero_tape 0%nat
                      = Ok (true, pos'))
        <-> (forall i, (i < range_len 3)%nat ->
               trial_verdict 4 9 s r zero_tape (0 + i) = true)).
Proof.
  apply (trial_orchestration 4%nat 9 3 zero_tape 0%nat);
    [reflexivity | lia | lia | unfold enough_fuel; cbn; lia].
Defined.

(** C9: for [n] odd and above [3] and [k <= 0], the program makes no
    witness test (the generator stays where it was) and answers [true]. *)
Theorem nonpositive_k_true (fuel : nat) (n k : Z) tape (pos : nat) :
  n mod 2 = 1 -> 3 < n -> k <= 0 -> enough_fuel fuel n ->
  is_prime_miller_rabin fuel n k tape pos = Ok (true, pos).
Proof.
  intros Hodd Hn Hk Hfuel.
  destruct (is_prime_after_decomposition fuel n k tape pos Hodd Hn Hfuel)
    as (s & r & _ & _ & _ & _ & _ & _ & ->).
  unfold range_len. replace (Z.to_nat k) with 0%nat by lia. reflexivity.
Qed.

Lemma nonpositive_k_true_witness :
  is_prime_miller_rabin 4 9 (-3) zero_tape 6%nat = Ok (true, 6%nat).
Proof.
  apply (nonpositive_k_true 4%nat 9 (-3) zero_tape 6%nat);
    [reflexivity | lia | lia | unfold enough_fuel; cbn; lia].
Defined.

(** ** Totality *)

(** C10: for all integers [n] and [k] and every state of the generator the
    program completes with a boolean: there is a budget from which on the
    answer is the same.  The decomposer does not complete on [1], whatever
    the budget; but unless [n] is odd and above [3] the program answers on
    the fast path, with no budget at all, and when [n] is odd and above [3]
    the decomposer completes, from the even value [n - 1 > 0] to a smaller
    one. *)
Theorem is_prime_total (n k : Z) tape (pos : nat) :
  (exists (fuel0 : nat) (b : bool) (pos' : nat),
      forall fuel, (fuel0 <= fuel)%nat ->
        is_prime_miller_rabin fuel n k tape pos = Ok (b, pos'))
  /\ (forall fuel, find_miller_rabin_r_s fuel 1 = OutOfFuel)
  /\ (~ (n mod 2 = 1 /\ 3 < n) ->
      is_prime_miller_rabin 0 n k tape pos = Ok ((n =? 2) || (n =? 3), pos))
  /\ (n mod 2 = 1 /\ 3 < n ->
      (n - 1) mod 2 = 0 /\
      exists (fuel0 : nat) (s r : Z),
        0 < r < n - 1 /\
        forall fuel, (fuel0 <= fuel)%nat ->
          find_miller_rabin_r_s fuel n = Ok (s, r)).
Proof.
  set (fuel0 := Z.to_nat (Z.log2 n)).
  assert (H0 : enough_fuel fuel0 n).
  { unfold enough_fuel, fuel0. pose proof (Z.log2_nonneg n). lia. }
  assert (Hslow : n mod 2 = 1 /\ 3 < n \/ ~ (n mod 2 = 1 /\ 3 < n)) by lia.
  split; [|split; [|split]].
  - destruct Hslow as [[Hodd Hn] | Hfast].
    + destruct (is_prime_after_decomposition fuel0 n k tape pos Hodd Hn H0)
        as (s & r & E & Hdec & _ & Hs & Hr & Hin & Eq).
      assert (Hc : forall p, miller_rabin_rand_test fuel0 n s r tape p
                             = Ok (trial_verdict fuel0 n s r tape p, S p))
        by (intros p; apply rand_test_verdict; trivial; lia).
      destruct (verdicts_cases fuel0 n s r tape (range_len k) pos)
        as [Hall | (i & Hi & Hbefore & Hfalse)].
      * rewrite (trials_all_true fuel0 n s r tape Hc _ pos Hall) in Eq.
        exists fuel0, true, (pos + range_len k)%nat. intros fuel Hle.
        apply (is_prime_fuel_mono fuel0); assumption.
      * rewrite (trials_first_false fuel0 n s r tape Hc _ pos i Hi Hbefore Hfalse)
          in Eq.
        exists fuel0, false, (S (pos + i)). intros fuel Hle.
        apply (is_prime_fuel_mono fuel0); assumption.
    + exists 0%nat, ((n =? 2) || (n =? 3)), pos. intros fuel _.
      apply is_prime_fast_path. exact Hfast.
  - intros fuel. unfold find_miller_rabin_r_s. apply find_loop_zero_diverges.
  - apply is_prime_fast_path.
  - intros [Hodd Hn]. split.
    + rewrite Zminus_mod, Hodd. reflexivity.
    + destruct (find_r_s_odd fuel0 n Hodd ltac:(lia) H0)
        as (s & r & E & Hdec & Hr & Hs & Hr1).
      exists fuel0, s, r. split.
      * assert (2 <= 2 ^ s).
        { change 2 with (2 ^ 1) at 1. apply Z.pow_le_mono_r; lia. }
        nia.
      * intros fuel Hle. unfold find_miller_rabin_r_s in *.
        apply (find_loop_fuel_mono fuel0); assumption.
Qed.

(** * The error bound on composites *)

Lemma in_Zrange (lo : Z) (len : nat) (x : Z) :
  In x (Zrange lo len) <-> lo <= x < lo + Z.of_nat len.
Proof.
  unfold Zrange. rewrite in_map_iff. split.
  - intros (i & <- & Hi). apply in_seq in Hi. lia.
  - intros Hx. exists (Z.to_nat (x - lo)). split; [lia|]. apply in_seq. lia.
Qed.

Lemma NoDup_Zrange (lo : Z) (len : nat) : NoDup (Zrange lo len).
Proof.
  unfold Zrange. apply NoDup_map_NoDup_ForallPairs; [|apply seq_NoDup].
  intros i j _ _ H. lia.
Qed.

Lemma length_Zrange (lo : Z) (len : nat) : length (Zrange lo len) = len.
Proof. unfold Zrange. rewrite length_map, length_seq. reflexivity. Qed.

Lemma Zrange_S (lo : Z) (len : nat) :
  Zrange lo (S len) = lo :: Zrange (lo + 1) len.
Proof.
  unfold Zrange. cbn [seq map]. f_equal; [lia|].
  rewrite <- seq_shift, map_map. apply map_ext. intros i. lia.
Qed.

Lemma Zrange_app (lo : Z) (a b : nat) :
  Zrange lo (a + b) = Zrange lo a ++ Zrange (lo + Z.of_nat a) b.
Proof.
  revert lo. induction a as [|a IH]; intros lo.
  - replace (lo + Z.of_nat 0) with lo by lia. reflexivity.
  - cbn [Nat.add]. rewrite !Zrange_S, IH. cbn [app]. do 3 f_equal. lia.
Qed.

(** Congruences, as divisibility of the difference. *)

Lemma mod_eq_divide (n a b : Z) : n <> 0 -> a mod n = b mod n <-> (n | a - b).
Proof.
  intros Hn. rewrite Z.cong_iff_0. apply Z.mod_divide. exact Hn.
Qed.

Lemma divide_pow_sub (n a b : Z) (k : Z) :
  0 <= k -> (n | a - b) -> (n | a ^ k - b ^ k).
Proof.
  intros Hk Hab. pattern k. apply natlike_ind; [| |exact Hk].
  - rewrite !Z.pow_0_r. exists 0. ring.
  - intros x Hx IH. rewrite !Z.pow_succ_r by assumption.
    replace (a * a ^ x - b * b ^ x) with (a * (a ^ x - b ^ x) + (a - b) * b ^ x)
      by ring.
    apply Z.divide_add_r; [apply Z.divide_mul_r | apply Z.divide_mul_l];
      assumption.
Qed.

Lemma divide_sub_trans (n a b c : Z) :
  (n | a - b) -> (n | b - c) -> (n | a - c).
Proof.
  intros H1 H2. replace (a - c) with ((a - b) + (b - c)) by ring.
  apply Z.divide_add_r; assumption.
Qed.

Lemma divide_sub_sym (n a b : Z) : (n | a - b) -> (n | b - a).
Proof.
  intros H. replace (b - a) with (- (a - b)) by ring.
  apply Z.divide_opp_r. exact H.
Qed.

Lemma pow_m1_even (k : Z) : 0 <= k -> (-1) ^ (2 * k) = 1.
Proof.
  intros Hk. rewrite Z.pow_mul_r by lia. change ((-1) ^ 2) with 1.
  apply Z.pow_1_l. exact Hk.
Qed.

Lemma pow_m1_odd (k : Z) : 0 <= k -> (-1) ^ (2 * k + 1) = -1.
Proof.
  intros Hk. rewrite Z.pow_add_r, pow_m1_even by lia. reflexivity.
Qed.

Lemma pow_m1_of_odd (d : Z) : 0 <= d -> d mod 2 = 1 -> (-1) ^ d = -1.
Proof.
  intros Hd Ho. rewrite (Z.div_mod d 2), Ho by lia.
  apply pow_m1_odd. apply Z.div_pos; lia.
Qed.

(** [a ^ k = 1] modulo [n] makes [a] a unit. *)
Lemma unit_of_pow_one (n a k : Z) :
  1 <= k -> (n | a ^ k - 1) -> Z.gcd a n = 1.
Proof.
  intros Hk [q Hq]. apply Z.bezout_1_gcd.
  exists (a ^ (k - 1)), (- q).
  replace (a ^ (k - 1) * a) with (a ^ k).
  - lia.
  - replace k with (Z.succ (k - 1)) at 1 by lia.
    rewrite Z.pow_succ_r by lia. ring.
Qed.

Lemma unit_of_pow_m1 (n a k : Z) :
  1 <= k -> (n | a ^ k + 1) -> Z.gcd a n = 1.
Proof.
  intros Hk [q Hq]. apply Z.bezout_1_gcd.
  exists (- a ^ (k - 1)), q.
  replace (- a ^ (k - 1) * a) with (- a ^ k).
  - lia.
  - replace k with (Z.succ (k - 1)) at 1 by lia.
    rewrite Z.pow_succ_r by lia. ring.
Qed.

Lemma unit_mul (n a b : Z) : Z.gcd a n = 1 -> Z.gcd b n = 1 -> Z.gcd (a * b) n = 1.
Proof. intros Ha Hb. apply Z.coprime_mul_l; assumption. Qed.

Lemma unit_cancel (n g a b : Z) :
  Z.gcd g n = 1 -> (n | a * g - b * g) -> (n | a - b).
Proof.
  intros Hg H. apply (Z.gauss n g); [|rewrite Z.gcd_comm; exact Hg].
  replace (g * (a - b)) with (a * g - b * g) by ring. exact H.
Qed.

Ltac divide_linear :=
  repeat match goal with
  | |- (_ | _) => assumption
  | |- (_ | _ + _) => apply Z.divide_add_r
  | |- (_ | _ - _) => apply Z.divide_sub_r
  | |- (_ | - _) => apply Z.divide_opp_r
  | |- (_ | _ * _) =>
      (apply Z.divide_mul_l; assumption) || (apply Z.divide_mul_r; assumption)
  end.

Lemma small_divide_eq (n a b : Z) :
  0 <= a < n -> 0 <= b < n -> (n | a - b) -> a = b.
Proof.
  intros Ha Hb [q Hq].
  assert (q = 0) by nia. subst q. lia.
Qed.

(** ** Four translates *)

Section Translates.
Variables (n E : Z).
Hypothesis n_big : 1 < n.
Hypothesis E_pos : 0 <= E.

Variable B : list Z.
Hypothesis B_nodup : NoDup B.
Hypothesis B_range : forall a, In a B -> 0 <= a < n.
Hypothesis B_sign : forall a, In a B -> (n | a ^ E - 1) \/ (n | a ^ E + 1).

Lemma translate_NoDup (g : Z) : Z.gcd g n = 1 -> NoDup (translate n g B).
Proof.
  intros Hg. unfold translate.
  apply NoDup_map_NoDup_ForallPairs; [|exact B_nodup].
  intros a b Ha Hb Heq. apply mod_eq_divide in Heq; [|lia].
  apply unit_cancel in Heq; [|exact Hg].
  apply (small_divide_eq n); auto.
Qed.

Lemma translate_range (g x : Z) : In x (translate n g B) -> 0 <= x < n.
Proof.
  unfold translate. rewrite in_map_iff. intros (a & <- & _).
  apply Z.mod_pos_bound. lia.
Qed.

Lemma translate_disjoint (g h x : Z) :
  separated n E g h -> In x (translate n g B) -> ~ In x (translate n h B).
Proof.
  intros [Hm Hp]. unfold translate. rewrite !in_map_iff.
  intros (a & <- & Ha) (b & Hb & Hb').
  apply mod_eq_divide in Hb; [|lia].
  apply (divide_pow_sub n _ _ E E_pos) in Hb.
  rewrite !Z.pow_mul_l in Hb.
  destruct (B_sign a Ha) as [Sa | Sa]; destruct (B_sign b Hb') as [Sb | Sb].
  - apply Hm.
    replace (g ^ E - h ^ E) with
      (- (b ^ E * h ^ E - a ^ E * g ^ E) - (a ^ E - 1) * g ^ E + (b ^ E - 1) * h ^ E)
      by ring.
    divide_linear.
  - apply Hp.
    replace (g ^ E + h ^ E) with
      (- (b ^ E * h ^ E - a ^ E * g ^ E) - (a ^ E - 1) * g ^ E + (b ^ E + 1) * h ^ E)
      by ring.
    divide_linear.
  - apply Hp.
    replace (g ^ E + h ^ E) with
      ((b ^ E * h ^ E - a ^ E * g ^ E) + (a ^ E + 1) * g ^ E - (b ^ E - 1) * h ^ E)
      by ring.
    divide_linear.
  - apply Hm.
    replace (g ^ E - h ^ E) with
      ((b ^ E * h ^ E - a ^ E * g ^ E) + (a ^ E + 1) * g ^ E - (b ^ E + 1) * h ^ E)
      by ring.
    divide_linear.
Qed.

Lemma separated_sym (g h : Z) : separated n E g h -> separated n E h g.
Proof.
  intros [Hm Hp]. split; intros H.
  - apply Hm. apply divide_sub_sym. exact H.
  - apply Hp. rewrite Z.add_comm. exact H.
Qed.

Lemma four_translates (g1 g2 g3 g4 : Z) :
  Z.gcd g1 n = 1 -> Z.gcd g2 n = 1 -> Z.gcd g3 n = 1 -> Z.gcd g4 n = 1 ->
  separated n E g1 g2 -> separated n E g1 g3 -> separated n E g1 g4 ->
  separated n E g2 g3 -> separated n E g2 g4 -> separated n E g3 g4 ->
  (4 * length B <= Z.to_nat n)%nat.
Proof.
  intros U1 U2 U3 U4 S12 S13 S14 S23 S24 S34.
  assert (Hnd : NoDup (translate n g1 B ++ translate n g2 B
                       ++ translate n g3 B ++ translate n g4 B)).
  { repeat apply NoDup_app; try (apply translate_NoDup; assumption).
    - intros x H3. apply translate_disjoint with (g := g3); assumption.
    - intros x H2 Hin. apply in_app_or in Hin. destruct Hin as [Hin | Hin];
        revert Hin; apply translate_disjoint with (g := g2); assumption.
    - intros x H1 Hin. apply in_app_or in Hin.
      destruct Hin as [Hin | Hin];
        [|apply in_app_or in Hin; destruct Hin as [Hin | Hin]];
        revert Hin; apply translate_disjoint with (g := g1); assumption. }
  apply NoDup_incl_length with (l' := Zrange 0 (Z.to_nat n)) in Hnd.
  - rewrite !length_app, length_Zrange in Hnd. unfold translate in Hnd.
    rewrite !length_map in Hnd. lia.
  - intros x Hin. apply in_Zrange.
    repeat (apply in_app_or in Hin; destruct Hin as [Hin | Hin]);
      apply translate_range in Hin; lia.
Qed.
End Translates.

Lemma divide_pow_one (n a k : Z) : 0 <= k -> (n | a - 1) -> (n | a ^ k - 1).
Proof.
  intros Hk H. pose proof (divide_pow_sub n a 1 k Hk H) as H'.
  rewrite Z.pow_1_l in H' by exact Hk. exact H'.
Qed.

Lemma divide_pow_m1 (n a k : Z) :
  0 <= k -> (n | a + 1) -> (n | a ^ k - (-1) ^ k).
Proof.
  intros Hk H. apply divide_pow_sub; [exact Hk|].
  replace (a - -1) with (a + 1) by ring. exact H.
Qed.

Lemma mod_is_one (n x : Z) : 1 < n -> x mod n = 1 -> (n | x - 1).
Proof.
  intros Hn H. apply mod_eq_divide; [lia|]. rewrite H, Z.mod_1_l by lia.
  reflexivity.
Qed.

Lemma mod_is_m1 (n x : Z) : 1 < n -> x mod n = n - 1 -> (n | x + 1).
Proof.
  intros Hn H. replace (x + 1) with (x - (-1)) by ring.
  apply mod_eq_divide; [lia|]. rewrite H.
  replace (-1) with (n - 1 + (-1) * n) by ring.
  rewrite Z.mod_add, Z.mod_small by lia. reflexivity.
Qed.

(** A run of squarings that answers [true] has reached [-1]. *)
Lemma spec_squarings_true (n : Z) (count : nat) :
  1 < n ->
  forall x, spec_squarings count n x = true ->
    exists i, 1 <= i <= Z.of_nat count /\ (n | x ^ (2 ^ i) + 1).
Proof.
  intros Hn. induction count as [|count IH]; intros x; cbn [spec_squarings];
    [discriminate|].
  destruct (Z.eqb_spec (x ^ 2 mod n) 1) as [|_]; [discriminate|].
  destruct (Z.eqb_spec (x ^ 2 mod n) (n - 1)) as [E|_].
  - intros _. exists 1. split; [lia|]. apply mod_is_m1; assumption.
  - intros H. apply IH in H. destruct H as (i & Hi & Hd).
    exists (i + 1). split; [lia|].
    rewrite Z.pow_add_r, Z.pow_1_r, Z.mul_comm, Z.pow_mul_r
      by (try apply Z.pow_nonneg; lia).
    assert (Hc : (n | (x ^ 2 mod n) ^ 2 ^ i - (x ^ 2) ^ 2 ^ i)).
    { apply divide_pow_sub; [apply Z.pow_nonneg; lia|].
      apply mod_eq_divide; [lia|]. apply Z.mod_mod. lia. }
    replace ((x ^ 2) ^ 2 ^ i + 1)
      with (((x ^ 2 mod n) ^ 2 ^ i + 1) - ((x ^ 2 mod n) ^ 2 ^ i - (x ^ 2) ^ 2 ^ i))
      by ring.
    apply Z.divide_sub_r; assumption.
Qed.

(** A strong liar: [a ^ d] is [1], or some [a ^ (d * 2 ^ j)] with [j < s]
    is [-1]. *)
Lemma liar_cases (n s d a : Z) :
  1 < n -> 0 <= d -> 1 <= s -> spec_trial n s d a = true ->
  (n | a ^ d - 1) \/ exists j, 0 <= j < s /\ (n | a ^ (d * 2 ^ j) + 1).
Proof.
  intros Hn Hd Hs. unfold spec_trial. cbv zeta.
  destruct (Z.eqb_spec (a ^ d mod n) 1) as [E1|_].
  - intros _. left. apply mod_is_one; assumption.
  - destruct (Z.eqb_spec (a ^ d mod n) (n - 1)) as [Em|_]; cbn [orb].
    + intros _. right. exists 0. split; [lia|].
      rewrite Z.pow_0_r, Z.mul_1_r. apply mod_is_m1; assumption.
    + intros H. apply spec_squarings_true in H; [|exact Hn].
      destruct H as (i & Hi & Hdiv). right. exists i. split; [lia|].
      rewrite Z.pow_mul_r by (try apply Z.pow_nonneg; lia).
      assert (Hc : (n | (a ^ d mod n) ^ 2 ^ i - (a ^ d) ^ 2 ^ i)).
      { apply divide_pow_sub; [apply Z.pow_nonneg; lia|].
        apply mod_eq_divide; [lia|]. apply Z.mod_mod. lia. }
      replace ((a ^ d) ^ 2 ^ i + 1)
        with (((a ^ d mod n) ^ 2 ^ i + 1)
              - ((a ^ d mod n) ^ 2 ^ i - (a ^ d) ^ 2 ^ i)) by ring.
      apply Z.divide_sub_r; assumption.
Qed.

(** [1] and [n - 1] are strong liars. *)
Lemma one_is_liar (n s d : Z) : 1 < n -> 0 <= d -> spec_trial n s d 1 = true.
Proof.
  intros Hn Hd. unfold spec_trial. cbv zeta.
  rewrite Z.pow_1_l, Z.mod_1_l, Z.eqb_refl by lia. reflexivity.
Qed.

Lemma minus_one_is_liar (n s d : Z) :
  1 < n -> 0 <= d -> d mod 2 = 1 -> spec_trial n s d (n - 1) = true.
Proof.
  intros Hn Hd Ho. unfold spec_trial. cbv zeta.
  assert (E : (n - 1) ^ d mod n = n - 1).
  { assert (Hc : (n | (n - 1) ^ d - (-1) ^ d)).
    { apply divide_pow_sub; [exact Hd|]. exists 1. ring. }
    rewrite pow_m1_of_odd in Hc by assumption.
    apply mod_eq_divide in Hc; [|lia]. rewrite Hc.
    replace (-1) with (n - 1 + (-1) * n) by ring.
    rewrite Z.mod_add, Z.mod_small by lia. reflexivity. }
  rewrite E, Z.eqb_refl, orb_true_r. reflexivity.
Qed.

(** The index [j] at which a power is [-1] stays below the 2-adic
    valuation of [p - 1], for every prime [p] that divides [n]. *)
Lemma minus_one_index_bound (n p a d j u e : Z) :
  Z.prime p -> 2 < p -> (p | n) ->
  1 <= d -> 0 <= j -> 0 <= e -> u mod 2 = 1 -> 0 <= u -> p - 1 = u * 2 ^ e ->
  (n | a ^ (d * 2 ^ j) + 1) -> j < e.
Proof.
  intros Hp Hp2 Hpn Hd Hj He Hu Hu0 Hdec Hm1.
  destruct (Z.lt_ge_cases j e) as [|Hje]; [assumption|exfalso].
  assert (Hpm : (p | a ^ (d * 2 ^ j) + 1)) by (eapply Z.divide_trans; eauto).
  assert (H2j : 0 < 2 ^ j) by (apply Z.pow_pos_nonneg; lia).
  assert (Hnz : a mod p <> 0).
  { intros Hz. apply Z.mod_divide in Hz; [|lia].
    assert (Hpa : (p | a ^ (d * 2 ^ j))).
    { replace (d * 2 ^ j) with (Z.succ (d * 2 ^ j - 1)) by lia.
      rewrite Z.pow_succ_r by nia. apply Z.divide_mul_l. exact Hz. }
    assert (H1 : (p | 1)).
    { replace 1 with ((a ^ (d * 2 ^ j) + 1) - a ^ (d * 2 ^ j)) by ring.
      apply Z.divide_sub_r; assumption. }
    apply Z.divide_1_r_nonneg in H1; lia. }
  pose proof (Z.fermat_nz p a Hp Hnz) as Hf.
  apply mod_is_one in Hf; [|lia]. rewrite Hdec in Hf.
  assert (H2e : 0 < 2 ^ e) by (apply Z.pow_pos_nonneg; lia).
  assert (H2je : 0 < 2 ^ (j - e)) by (apply Z.pow_pos_nonneg; lia).
  assert (Hone : (p | a ^ (d * 2 ^ j * u) - 1)).
  { replace (d * 2 ^ j * u) with ((u * 2 ^ e) * (d * 2 ^ (j - e))).
    - rewrite Z.pow_mul_r by nia. apply divide_pow_one; [nia | exact Hf].
    - replace j with (e + (j - e)) at 2 by lia.
      rewrite Z.pow_add_r by lia. ring. }
  assert (Hmone : (p | a ^ (d * 2 ^ j * u) + 1)).
  { rewrite Z.pow_mul_r by nia.
    pose proof (divide_pow_m1 p (a ^ (d * 2 ^ j)) u Hu0 Hpm) as H.
    rewrite pow_m1_of_odd in H by assumption.
    replace (- -1) with 1 in H by ring.
    replace ((a ^ (d * 2 ^ j)) ^ u - -1) with ((a ^ (d * 2 ^ j)) ^ u + 1) in H
      by ring.
    exact H. }
  assert (H2 : (p | 2)).
  { replace 2 with ((a ^ (d * 2 ^ j * u) + 1) - (a ^ (d * 2 ^ j * u) - 1))
      by ring.
    apply Z.divide_sub_r; assumption. }
  apply Z.divide_pos_le in H2; lia.
Qed.

(** With [l] above all such indices, the power [a ^ (d * 2 ^ (l - 1))] of a
    strong liar is [1] or [-1]. *)
Lemma liar_power_sign (n s d a l : Z) :
  1 < n -> 0 <= d -> 1 <= s -> 1 <= l ->
  (forall j, 0 <= j < s -> (n | a ^ (d * 2 ^ j) + 1) -> j < l) ->
  spec_trial n s d a = true ->
  (n | a ^ (d * 2 ^ (l - 1)) - 1) \/ (n | a ^ (d * 2 ^ (l - 1)) + 1).
Proof.
  intros Hn Hd Hs Hl Hbound Hliar.
  destruct (liar_cases n s d a Hn Hd Hs Hliar) as [H1 | (j & Hj & Hm1)].
  - left. rewrite Z.pow_mul_r by (try apply Z.pow_nonneg; lia).
    apply divide_pow_one; [apply Z.pow_nonneg; lia | exact H1].
  - pose proof (Hbound j Hj Hm1) as Hjl.
    destruct (Z.eq_dec j (l - 1)) as [->|Hne]; [right; exact Hm1|].
    left.
    replace (d * 2 ^ (l - 1)) with ((d * 2 ^ j) * (2 * 2 ^ (l - 2 - j))).
    + assert (0 <= 2 ^ (l - 2 - j)) by (apply Z.pow_nonneg; lia).
      assert (0 <= d * 2 ^ j) by (apply Z.mul_nonneg_nonneg;
                                   [lia | apply Z.pow_nonneg; lia]).
      rewrite Z.pow_mul_r by lia.
      pose proof (divide_pow_m1 n (a ^ (d * 2 ^ j)) (2 * 2 ^ (l - 2 - j))
                    ltac:(lia) Hm1) as Hpw.
      rewrite pow_m1_even in Hpw by lia. exact Hpw.
    + replace (l - 1) with (j + (1 + (l - 2 - j))) by lia.
      rewrite !Z.pow_add_r by lia. rewrite Z.pow_1_r. ring.
Qed.

Lemma liars_NoDup (n s d : Z) : NoDup (liars n s d).
Proof. apply NoDup_filter, NoDup_Zrange. Qed.

Lemma liars_range (n s d a : Z) : In a (liars n s d) -> 0 <= a < n.
Proof.
  unfold liars. rewrite filter_In, in_Zrange. lia.
Qed.

Lemma liars_liar (n s d a : Z) : In a (liars n s d) -> spec_trial n s d a = true.
Proof. unfold liars. rewrite filter_In. tauto. Qed.

(** Four units whose [d * 2 ^ (l - 1)]-th powers differ by more than a
    sign bound the liars by a quarter of the residues. *)
Lemma liars_bound_from_units (n s d l g1 g2 g3 g4 : Z) :
  1 < n -> 0 <= d -> 1 <= s -> 1 <= l ->
  (forall a j, 0 <= j < s -> (n | a ^ (d * 2 ^ j) + 1) -> j < l) ->
  Z.gcd g1 n = 1 -> Z.gcd g2 n = 1 -> Z.gcd g3 n = 1 -> Z.gcd g4 n = 1 ->
  separated n (d * 2 ^ (l - 1)) g1 g2 ->
  separated n (d * 2 ^ (l - 1)) g1 g3 ->
  separated n (d * 2 ^ (l - 1)) g1 g4 ->
  separated n (d * 2 ^ (l - 1)) g2 g3 ->
  separated n (d * 2 ^ (l - 1)) g2 g4 ->
  separated n (d * 2 ^ (l - 1)) g3 g4 ->
  (4 * length (liars n s d) <= Z.to_nat n)%nat.
Proof.
  intros Hn Hd Hs Hl Hbound U1 U2 U3 U4 S12 S13 S14 S23 S24 S34.
  apply (four_translates n (d * 2 ^ (l - 1))) with (g1 := g1) (g2 := g2)
    (g3 := g3) (g4 := g4); trivial.
  - apply Z.mul_nonneg_nonneg; [lia | apply Z.pow_nonneg; lia].
  - apply liars_NoDup.
  - apply liars_range.
  - intros a Ha. apply (liar_power_sign n s d a l); trivial.
    + intros j. apply Hbound.
    + apply liars_liar. exact Ha.
Qed.

(** ** Moduli with a nilpotent divisor *)

Lemma pow_one_plus_nilpotent (n c t k : Z) :
  (n | c * c) -> 0 <= k -> (n | (1 + t * c) ^ k - (1 + k * t * c)).
Proof.
  intros [q Hq] Hk. pattern k. apply natlike_ind; [| |exact Hk].
  - rewrite Z.pow_0_r. exists 0. ring.
  - intros x Hx [r Hr]. rewrite Z.pow_succ_r by exact Hx.
    exists ((1 + t * c) * r + x * t * t * q).
    replace ((1 + t * c) * (1 + t * c) ^ x)
      with ((1 + t * c) * ((1 + t * c) ^ x - (1 + x * t * c))
            + (1 + t * c) * (1 + x * t * c)) by ring.
    rewrite Hr.
    replace ((1 + t * c) * (1 + x * t * c))
      with (1 + Z.succ x * t * c + x * t * t * (c * c)) by ring.
    rewrite Hq. ring.
Qed.

Lemma one_plus_nilpotent_unit (n c t : Z) :
  (n | c * c) -> Z.gcd (1 + t * c) n = 1.
Proof.
  intros [q Hq]. apply Z.bezout_1_gcd.
  exists (1 - t * c), (t * t * q).
  replace ((1 - t * c) * (1 + t * c)) with (1 - t * t * (c * c)) by ring.
  rewrite Hq. ring.
Qed.

Lemma nilpotent_separated (n c m i j : Z) :
  1 < n -> n = c * m -> (n | c * c) -> 3 <= c -> 4 <= m ->
  0 <= i -> i < j -> j <= 3 ->
  separated n (n - 1) (1 + i * c) (1 + j * c).
Proof.
  intros Hn Hnc Hnil Hc Hm Hi Hij Hj.
  pose proof (pow_one_plus_nilpotent n c i (n - 1) Hnil ltac:(lia)) as Pi.
  pose proof (pow_one_plus_nilpotent n c j (n - 1) Hnil ltac:(lia)) as Pj.
  assert (Hcn : (c | n)) by (exists m; lia).
  split; intros H;
    set (X := (1 + i * c) ^ (n - 1)) in *;
    set (Y := (1 + j * c) ^ (n - 1)) in *;
    clearbody X Y.
  - assert (Hd : (n | (j - i) * c)).
    { replace ((j - i) * c) with
        ((X - Y) - (X - (1 + (n - 1) * i * c)) + (Y - (1 + (n - 1) * j * c))
         + n * ((j - i) * c)) by ring.
      divide_linear. apply Z.divide_factor_l. }
    destruct Hd as [q Hq]. rewrite Hnc in Hq.
    assert (j - i = q * m) by nia.
    assert (0 < q) by nia. nia.
  - assert (Hd : (n | 2 - (i + j) * c)).
    { replace (2 - (i + j) * c) with
        ((X + Y) - (X - (1 + (n - 1) * i * c)) - (Y - (1 + (n - 1) * j * c))
         - n * ((i + j) * c)) by ring.
      divide_linear. apply Z.divide_factor_l. }
    assert (H2 : (c | 2)).
    { replace 2 with ((2 - (i + j) * c) + (i + j) * c) by ring.
      apply Z.divide_add_r; [eapply Z.divide_trans; eauto|].
      apply Z.divide_factor_r. }
    apply Z.divide_pos_le in H2; lia.
Qed.

(** When [n = c * m] with [n | c * c], [c >= 3] and [m >= 4], the liars are
    at most a quarter of the residues. *)
Lemma liars_bound_nilpotent (n s d c m : Z) :
  1 < n -> 1 <= d -> 1 <= s -> n - 1 = d * 2 ^ s ->
  n = c * m -> (n | c * c) -> 3 <= c -> 4 <= m ->
  (4 * length (liars n s d) <= Z.to_nat n)%nat.
Proof.
  intros Hn Hd Hs Hdec Hnc Hnil Hc Hm.
  apply (liars_bound_from_units n s d (s + 1)
           (1 + 0 * c) (1 + 1 * c) (1 + 2 * c) (1 + 3 * c));
    try lia; try (apply one_plus_nilpotent_unit; exact Hnil);
    replace (s + 1 - 1) with s by lia; rewrite <- Hdec;
    apply (nilpotent_separated n c m); trivial; lia.
Qed.

(** ** Roots of monic polynomials modulo a prime *)

Lemma length_mquot (r : Z) (cs : list Z) (c : Z) :
  length (mquot (c :: cs) r) = length cs.
Proof.
  revert c. induction cs as [|c' cs IH]; intros c; [reflexivity|].
  change (mquot (c :: c' :: cs) r) with (mval (c' :: cs) r :: mquot (c' :: cs) r).
  cbn [length]. rewrite IH. reflexivity.
Qed.

Lemma mval_mquot (x r : Z) (cs : list Z) (c : Z) :
  mval (c :: cs) x = (x - r) * mval (mquot (c :: cs) r) x + mval (c :: cs) r.
Proof.
  revert c. induction cs as [|c' cs IH]; intros c.
  - cbn. ring.
  - change (mquot (c :: c' :: cs) r) with (mval (c' :: cs) r :: mquot (c' :: cs) r).
    change (mval (c :: c' :: cs) x) with (c + x * mval (c' :: cs) x).
    change (mval (c :: c' :: cs) r) with (c + r * mval (c' :: cs) r).
    change (mval (mval (c' :: cs) r :: mquot (c' :: cs) r) x)
      with (mval (c' :: cs) r + x * mval (mquot (c' :: cs) r) x).
    rewrite (IH c'). ring.
Qed.

Lemma mroots_bound (p : Z) :
  Z.prime p ->
  forall (k : nat) (cs roots : list Z),
    length cs = k -> NoDup roots ->
    (forall x, In x roots -> 0 <= x < p /\ (p | mval cs x)) ->
    (length roots <= k)%nat.
Proof.
  intros Hp. pose proof (Z.prime_ge_2 p Hp) as Hp2.
  induction k as [|k IH]; intros cs roots Hlen Hnd Hroots.
  - destruct cs; [|discriminate]. destruct roots as [|x roots]; [cbn; lia|].
    destruct (Hroots x (or_introl eq_refl)) as [_ H1]. cbn in H1.
    apply Z.divide_1_r_nonneg in H1; lia.
  - destruct cs as [|c cs]; [discriminate|]. injection Hlen as Hlen.
    destruct roots as [|r rest]; [cbn; lia|]. cbn [length].
    apply le_n_S. inversion Hnd as [|? ? Hnotin Hnd']; subst.
    apply (IH (mquot (c :: cs) r)); [apply length_mquot | exact Hnd' |].
    intros x Hx.
    destruct (Hroots x (or_intror Hx)) as [Hxr Hxd].
    destruct (Hroots r (or_introl eq_refl)) as [Hrr Hrd].
    split; [exact Hxr|].
    rewrite (mval_mquot x r) in Hxd.
    assert (Hprod : (p | (x - r) * mval (mquot (c :: cs) r) x)).
    { replace ((x - r) * mval (mquot (c :: cs) r) x)
        with (((x - r) * mval (mquot (c :: cs) r) x + mval (c :: cs) r)
              - mval (c :: cs) r) by ring.
      apply Z.divide_sub_r; assumption. }
    apply (Z.divide_prime_mul _ _ p Hp) in Hprod.
    destruct Hprod as [Hbad | Hgood]; [exfalso | exact Hgood].
    apply (small_divide_eq p x r Hxr Hrr) in Hbad. subst x. contradiction.
Qed.

Lemma mval_repeat_zero (k : nat) (x : Z) : mval (repeat 0 k) x = x ^ Z.of_nat k.
Proof.
  induction k as [|k IH]; [reflexivity|].
  cbn [repeat mval]. rewrite IH, Nat2Z.inj_succ, Z.pow_succ_r by lia. ring.
Qed.

(** [x ^ m = 1] has at most [m] roots modulo a prime. *)
Lemma pow_roots_bound (p m : Z) (roots : list Z) :
  Z.prime p -> 1 <= m -> NoDup roots ->
  (forall x, In x roots -> 0 <= x < p /\ (p | x ^ m - 1)) ->
  (length roots <= Z.to_nat m)%nat.
Proof.
  intros Hp Hm Hnd Hroots.
  apply (mroots_bound p Hp _ ((-1) :: repeat 0 (Z.to_nat (m - 1)))); trivial.
  - cbn [length]. rewrite repeat_length. lia.
  - intros x Hx. destruct (Hroots x Hx) as [Hr Hd]. split; [exact Hr|].
    cbn [mval]. rewrite mval_repeat_zero.
    replace (-1 + x * x ^ Z.of_nat (Z.to_nat (m - 1))) with (x ^ m - 1);
      [exact Hd|].
    replace m with (Z.succ (m - 1)) at 1 by lia.
    rewrite Z.pow_succ_r, Z2Nat.id by lia. ring.
Qed.

(** Below [p - 1], some unit is not a root. *)
Lemma exists_non_root (p m : Z) :
  Z.prime p -> 1 <= m < p - 1 ->
  exists c, 1 <= c < p /\ ~ (p | c ^ m - 1).
Proof.
  intros Hp Hm.
  set (units := Zrange 1 (Z.to_nat (p - 1))).
  set (is_root := fun c => (c ^ m - 1) mod p =? 0).
  destruct (forallb is_root units) eqn:Hall.
  - exfalso. rewrite forallb_forall in Hall.
    assert (Hlen : (length units <= Z.to_nat m)%nat).
    { apply (pow_roots_bound p m units Hp); [lia | apply NoDup_Zrange |].
      intros x Hx. pose proof (Hall x Hx) as Hroot.
      apply in_Zrange in Hx. split; [lia|].
      unfold is_root in Hroot. apply Z.eqb_eq in Hroot.
      apply Z.mod_divide in Hroot; [exact Hroot | lia]. }
    unfold units in Hlen. rewrite length_Zrange in Hlen. lia.
  - assert (Hex : existsb (fun c => negb (is_root c)) units = true).
    { destruct (existsb (fun c => negb (is_root c)) units) eqn:Hex; [reflexivity|].
      rewrite <- Hall. apply forallb_forall. intros x Hx.
      rewrite <- not_true_iff_false in Hex.
      destruct (is_root x) eqn:Hr; [reflexivity|].
      exfalso. apply Hex. apply existsb_exists. exists x.
      rewrite Hr. auto. }
    apply existsb_exists in Hex. destruct Hex as (c & Hc & Hnr).
    apply in_Zrange in Hc. exists c. split; [lia|].
    intros Hd. apply Z.mod_divide in Hd; [|lia].
    unfold is_root in Hnr. rewrite Hd in Hnr. discriminate.
Qed.

(** Modulo an odd prime some [c] has [c ^ ((p - 1) / 2) = -1]. *)
Lemma exists_half_power_m1 (p : Z) :
  Z.prime p -> 2 < p -> p mod 2 = 1 ->
  exists c, 1 <= c < p /\ (p | c ^ ((p - 1) / 2) + 1).
Proof.
  intros Hp Hp2 Hodd.
  assert (Hhalf : p - 1 = 2 * ((p - 1) / 2)).
  { pose proof (Z.div_mod (p - 1) 2 ltac:(lia)) as H.
    assert (E : (p - 1) mod 2 = 0) by (rewrite Zminus_mod, Hodd; reflexivity).
    lia. }
  destruct (exists_non_root p ((p - 1) / 2) Hp ltac:(lia)) as (c & Hc & Hnr).
  exists c. split; [exact Hc|].
  assert (Hnz : c mod p <> 0) by (rewrite Z.mod_small; lia).
  pose proof (Z.fermat_nz p c Hp Hnz) as Hf.
  rewrite Hhalf, Z.mul_comm, Z.pow_mul_r in Hf by lia.
  destruct (sqrt_one_mod_prime p _ Hp Hf) as [H1 | Hm1].
  - exfalso. apply Hnr. apply mod_is_one; [lia | exact H1].
  - apply mod_is_m1; [lia | exact Hm1].
Qed.

(** ** Lifting [-1] to prime powers *)

Lemma pow_diff_geom (a b : Z) (k : nat) :
  a ^ Z.of_nat k - b ^ Z.of_nat k = (a - b) * geom a b k.
Proof.
  induction k as [|k IH]; [cbn; ring|].
  rewrite Nat2Z.inj_succ, !Z.pow_succ_r by lia. cbn [geom].
  replace (a * a ^ Z.of_nat k - b * b ^ Z.of_nat k)
    with (a * (a ^ Z.of_nat k - b ^ Z.of_nat k) + (a - b) * b ^ Z.of_nat k)
    by ring.
  rewrite IH. ring.
Qed.

Lemma geom_cong (p a b : Z) (k : nat) :
  (p | a - b) -> (p | geom a b (S k) - Z.of_nat (S k) * b ^ Z.of_nat k).
Proof.
  intros Hab. induction k as [|k IH].
  - cbn. exists 0. ring.
  - change (geom a b (S (S k))) with (a * geom a b (S k) + b ^ Z.of_nat (S k)).
    assert (E1 : b ^ Z.of_nat (S k) = b * b ^ Z.of_nat k)
      by (rewrite Nat2Z.inj_succ, Z.pow_succ_r by lia; reflexivity).
    assert (E2 : Z.of_nat (S (S k)) = Z.of_nat (S k) + 1) by lia.
    rewrite E1, E2.
    set (G := geom a b (S k)) in *. set (B := b ^ Z.of_nat k) in *.
    set (K := Z.of_nat (S k)) in *. clearbody G B K.
    replace (a * G + b * B - (K + 1) * (b * B))
      with (a * (G - K * B) + (a - b) * (K * B)) by ring.
    divide_linear.
Qed.

Lemma divide_mul_both (m p a b : Z) : (m | a) -> (p | b) -> (m * p | a * b).
Proof.
  intros [x Hx] [y Hy]. exists (x * y). rewrite Hx, Hy. ring.
Qed.

Lemma lift_step (p a b M : Z) :
  1 <= p -> (p | M) -> (M | a - b) -> (M * p | a ^ p - b ^ p).
Proof.
  intros Hp HpM Hab.
  replace p with (Z.of_nat (Z.to_nat p)) at 2 3 by lia.
  rewrite pow_diff_geom. apply divide_mul_both; [exact Hab|].
  assert (Hpab : (p | a - b)) by (eapply Z.divide_trans; eauto).
  destruct (Z.to_nat p) as [|k] eqn:Ek; [lia|].
  pose proof (geom_cong p a b k Hpab) as Hg.
  replace (geom a b (S k))
    with ((geom a b (S k) - Z.of_nat (S k) * b ^ Z.of_nat k)
          + Z.of_nat (S k) * b ^ Z.of_nat k) by ring.
  apply Z.divide_add_r; [exact Hg|]. apply Z.divide_mul_l.
  exists 1. lia.
Qed.

Lemma lift_minus_one (p z : Z) (j : nat) :
  2 < p -> p mod 2 = 1 -> (p | z + 1) ->
  (p ^ Z.of_nat (S j) | z ^ (p ^ Z.of_nat j) + 1).
Proof.
  intros Hp Hodd Hz. induction j as [|j IH].
  - cbn [Z.of_nat]. rewrite Z.pow_0_r, !Z.pow_1_r. exact Hz.
  - rewrite (Nat2Z.inj_succ (S j)), Z.pow_succ_r by lia.
    rewrite (Nat2Z.inj_succ j) at 2. rewrite (Z.pow_succ_r p (Z.of_nat j)) by lia.
    rewrite (Z.mul_comm p (p ^ Z.of_nat j)).
    rewrite Z.pow_mul_r by (try apply Z.pow_nonneg; lia).
    rewrite (Z.mul_comm p).
    pose proof (lift_step p (z ^ p ^ Z.of_nat j) (-1) (p ^ Z.of_nat (S j))
                  ltac:(lia)) as H.
    rewrite pow_m1_of_odd in H by lia.
    replace ((z ^ p ^ Z.of_nat j) ^ p - -1) with ((z ^ p ^ Z.of_nat j) ^ p + 1)
      in H by ring.
    apply H.
    + rewrite Nat2Z.inj_succ, Z.pow_succ_r by lia. apply Z.divide_factor_l.
    + replace (z ^ p ^ Z.of_nat j - -1) with (z ^ p ^ Z.of_nat j + 1) by ring.
      exact IH.
Qed.

(** Modulo a power of an odd prime [p], with [2 ^ l | p - 1] and [d] odd,
    some [y] has [y ^ (d * 2 ^ (l - 1)) = -1]. *)
Lemma exists_power_m1 (p alpha u e l d : Z) :
  Z.prime p -> 2 < p -> 1 <= alpha ->
  0 <= u -> p - 1 = u * 2 ^ e -> 1 <= l <= e ->
  1 <= d -> d mod 2 = 1 ->
  exists y, (p ^ alpha | y ^ (d * 2 ^ (l - 1)) + 1).
Proof.
  intros Hp Hp2 Ha Hu Hdec Hl Hd Hdo.
  assert (Hodd : p mod 2 = 1).
  { destruct (prime_odd_or_small p Hp) as [-> | [-> | [H _]]];
      [lia | reflexivity | exact H]. }
  destruct (exists_half_power_m1 p Hp Hp2 Hodd) as (c & Hc & Hm1).
  assert (H2e : 2 ^ e = 2 * 2 ^ (e - 1)).
  { replace e with (Z.succ (e - 1)) at 1 by lia.
    rewrite Z.pow_succ_r by lia. reflexivity. }
  assert (Hhalf : (p - 1) / 2 = u * 2 ^ (e - 1)).
  { rewrite Hdec, H2e.
    replace (u * (2 * 2 ^ (e - 1))) with (u * 2 ^ (e - 1) * 2) by ring.
    apply Z.div_mul. lia. }
  rewrite Hhalf in Hm1.
  pose proof (lift_minus_one p _ (Z.to_nat (alpha - 1)) Hp2 Hodd Hm1) as Hlift.
  replace (Z.of_nat (S (Z.to_nat (alpha - 1)))) with alpha in Hlift by lia.
  rewrite Z2Nat.id in Hlift by lia.
  assert (Hpa : 0 <= p ^ (alpha - 1)) by (apply Z.pow_nonneg; lia).
  assert (H2a : 0 <= 2 ^ (e - 1)) by (apply Z.pow_nonneg; lia).
  assert (H2b : 0 <= 2 ^ (e - l)) by (apply Z.pow_nonneg; lia).
  assert (H2c : 0 <= 2 ^ (l - 1)) by (apply Z.pow_nonneg; lia).
  exists (c ^ (p ^ (alpha - 1) * u * 2 ^ (e - l))).
  rewrite <- Z.pow_mul_r by nia.
  replace (p ^ (alpha - 1) * u * 2 ^ (e - l) * (d * 2 ^ (l - 1)))
    with (u * 2 ^ (e - 1) * p ^ (alpha - 1) * d).
  - rewrite (Z.pow_mul_r c (u * 2 ^ (e - 1) * p ^ (alpha - 1)) d) by nia.
    rewrite (Z.pow_mul_r c (u * 2 ^ (e - 1))) by nia.
    pose proof (divide_pow_m1 _ _ d ltac:(lia) Hlift) as H.
    rewrite pow_m1_of_odd in H by lia.
    match type of H with (_ | ?X - -1) => replace (X - -1) with (X + 1) in H by ring end.
    exact H.
  - replace (e - 1) with ((e - l) + (l - 1)) by lia.
    rewrite Z.pow_add_r by lia. ring.
Qed.

(** ** Chinese remainders *)

Lemma chinese_remainder (m1 m2 r1 r2 : Z) :
  Z.gcd m1 m2 = 1 -> exists x, (m1 | x - r1) /\ (m2 | x - r2).
Proof.
  intros Hg. destruct (Z.gcd_bezout m1 m2 1 Hg) as (u & v & Huv).
  exists (r1 * (v * m2) + r2 * (u * m1)). split.
  - exists (u * (r2 - r1)).
    replace (r1 * (v * m2)) with (r1 * (1 - u * m1)) by (rewrite <- Huv; ring).
    ring.
  - exists (v * (r1 - r2)).
    replace (r2 * (u * m1)) with (r2 * (1 - v * m2)) by (rewrite <- Huv; ring).
    ring.
Qed.

Lemma divide_coprime_mul (m1 m2 z : Z) :
  Z.gcd m1 m2 = 1 -> (m1 | z) -> (m2 | z) -> (m1 * m2 | z).
Proof.
  intros Hg [k Hk] H2. subst z.
  assert (Hd : (m2 | k)).
  { apply (Z.gauss m2 m1); [rewrite Z.mul_comm; exact H2|].
    rewrite Z.gcd_comm. exact Hg. }
  destruct Hd as [k' ->]. exists k'. ring.
Qed.

(** ** Congruences by residues *)

Lemma cong_rfl (m a : Z) : (m | a - a).
Proof. exists 0. ring. Qed.

Lemma cong_plus (m a a' b b' : Z) :
  (m | a - a') -> (m | b - b') -> (m | (a + b) - (a' + b')).
Proof.
  intros Ha Hb. replace (a + b - (a' + b')) with ((a - a') + (b - b')) by ring.
  divide_linear.
Qed.

Lemma cong_minus (m a a' b b' : Z) :
  (m | a - a') -> (m | b - b') -> (m | (a - b) - (a' - b')).
Proof.
  intros Ha Hb. replace (a - b - (a' - b')) with ((a - a') - (b - b')) by ring.
  divide_linear.
Qed.

Lemma cong_times (m a a' b b' : Z) :
  (m | a - a') -> (m | b - b') -> (m | (a * b) - (a' * b')).
Proof.
  intros Ha Hb.
  replace (a * b - a' * b') with ((a - a') * b + a' * (b - b')) by ring.
  divide_linear.
Qed.

Ltac cong_eval :=
  repeat match goal with
  | |- (_ | (_ + _) - _) => eapply cong_plus
  | |- (_ | (_ - _) - _) => eapply cong_minus
  | |- (_ | (_ * _) - _) => eapply cong_times
  | |- (_ | _ - _) => first [eassumption | apply cong_rfl]
  end.

Lemma not_divide_two (m x : Z) : 3 <= m -> x = 2 \/ x = -2 -> ~ (m | x).
Proof.
  intros Hm [-> | ->] H.
  - apply Z.divide_pos_le in H; lia.
  - apply Z.divide_opp_r in H. cbn in H. apply Z.divide_pos_le in H; lia.
Qed.

(** From [H : n | P], with [m | n] and the residues modulo [m] of the atoms
    of [P] among the hypotheses: [P] is [2] or [-2] modulo [m], which is
    absurd for [m >= 3]. *)
Ltac absurd_mod m H :=
  let Hm := fresh "Hm" in
  let Hc := fresh "Hc" in
  match type of H with
  | (?n | ?P) =>
      eassert (Hc : (m | P - _)) by cong_eval;
      match goal with
      | Hmn : (m | n) |- _ => pose proof (Z.divide_trans m n _ Hmn H) as Hm
      end;
      match type of Hc with
      | (_ | _ - ?r) =>
          exfalso; apply (not_divide_two m r);
          [ lia
          | vm_compute; auto
          | replace r with (P - (P - r)) by ring;
            apply Z.divide_sub_r; assumption ]
      end
  end.

(** An element that is [-1] to the power [E] modulo [m1], and [1] modulo
    [m2]. *)
Lemma sign_element (m1 m2 y E : Z) :
  Z.gcd m1 m2 = 1 -> 1 <= E -> (m1 | y ^ E + 1) ->
  exists g, Z.gcd g (m1 * m2) = 1
    /\ (m1 | g ^ E - (-1)) /\ (m2 | g ^ E - 1).
Proof.
  intros Hg HE Hy.
  destruct (chinese_remainder m1 m2 y 1 Hg) as (g & G1 & G2).
  assert (H1 : (m1 | g ^ E - (-1))).
  { replace (g ^ E - -1) with ((g ^ E - y ^ E) + (y ^ E + 1)) by ring.
    apply Z.divide_add_r; [|exact Hy]. apply divide_pow_sub; [lia | exact G1]. }
  assert (H2 : (m2 | g ^ E - 1)) by (apply divide_pow_one; [lia | exact G2]).
  exists g. repeat split; trivial.
  apply (unit_of_pow_one _ _ (E * 2)); [lia|].
  rewrite Z.pow_mul_r by lia.
  replace ((g ^ E) ^ 2 - 1) with ((g ^ E - -1) * (g ^ E - 1)) by ring.
  apply divide_mul_both; assumption.
Qed.

(** ** Three coprime factors *)

Section Factors.
Variables (n s d l n1 n2 n3 : Z).
Hypothesis n_big : 1 < n.
Hypothesis d_pos : 1 <= d.
Hypothesis s_pos : 1 <= s.
Hypothesis l_pos : 1 <= l.
Hypothesis n_split : n = n1 * n2 * n3.
Hypothesis n1_big : 3 <= n1.
Hypothesis n2_big : 3 <= n2.
Hypothesis n3_pos : 1 <= n3.
Hypothesis cop12 : Z.gcd n1 n2 = 1.
Hypothesis cop13 : Z.gcd n1 n3 = 1.
Hypothesis cop23 : Z.gcd n2 n3 = 1.
Hypothesis index_bound :
  forall a j, 0 <= j < s -> (n | a ^ (d * 2 ^ j) + 1) -> j < l.
Hypothesis root1 : exists y, (n1 | y ^ (d * 2 ^ (l - 1)) + 1).
Hypothesis root2 : exists y, (n2 | y ^ (d * 2 ^ (l - 1)) + 1).

Let E := d * 2 ^ (l - 1).

Lemma E_pos : 1 <= E.
Proof.
  unfold E. assert (0 < 2 ^ (l - 1)) by (apply Z.pow_pos_nonneg; lia). nia.
Qed.

Lemma factor_divides : (n1 | n) /\ (n2 | n) /\ (n3 | n).
Proof.
  rewrite n_split. repeat split.
  - exists (n2 * n3). ring.
  - exists (n1 * n3). ring.
  - exists (n1 * n2). ring.
Qed.

Lemma first_sign_element :
  exists g, Z.gcd g n = 1
    /\ (n1 | g ^ E - (-1)) /\ (n2 | g ^ E - 1) /\ (n3 | g ^ E - 1).
Proof.
  destruct root1 as (y & Hy).
  destruct (sign_element n1 (n2 * n3) y E) as (g & Hu & H1 & H23);
    [apply Z.coprime_mul_r; assumption | apply E_pos | exact Hy |].
  exists g. repeat split; trivial.
  - rewrite n_split, <- Z.mul_assoc. exact Hu.
  - eapply Z.divide_trans; [|exact H23]. exists n3. ring.
  - eapply Z.divide_trans; [|exact H23]. exists n2. ring.
Qed.

Lemma second_sign_element :
  exists g, Z.gcd g n = 1
    /\ (n1 | g ^ E - 1) /\ (n2 | g ^ E - (-1)) /\ (n3 | g ^ E - 1).
Proof.
  destruct root2 as (y & Hy).
  destruct (sign_element n2 (n1 * n3) y E) as (g & Hu & H2 & H13);
    [apply Z.coprime_mul_r; unfold Z.coprime; [rewrite Z.gcd_comm|]; assumption
    | apply E_pos | exact Hy |].
  exists g. repeat split; trivial.
  - rewrite n_split.
    replace (n1 * n2 * n3) with (n2 * (n1 * n3)) by ring. exact Hu.
  - eapply Z.divide_trans; [|exact H13]. exists n3. ring.
  - eapply Z.divide_trans; [|exact H13]. exists n1. ring.
Qed.

(** With a third factor the four sign patterns [(1, 1, 1)], [(-1, 1, 1)],
    [(1, -1, 1)] and [(-1, -1, 1)] are apart. *)
Lemma liars_bound_three_factors :
  3 <= n3 -> (4 * length (liars n s d) <= Z.to_nat n)%nat.
Proof.
  intros n3_big.
  destruct factor_divides as (D1 & D2 & D3).
  destruct first_sign_element as (g2 & U2 & A1 & A2 & A3).
  destruct second_sign_element as (g3 & U3 & B1 & B2 & B3).
  apply (liars_bound_from_units n s d l 1 g2 g3 (g2 * g3)); trivial;
    try lia; try apply Z.gcd_1_l; try (apply unit_mul; assumption);
    fold E; unfold separated; rewrite ?Z.pow_mul_l, ?Z.pow_1_l by lia;
    set (U := g2 ^ E) in *; set (V := g3 ^ E) in *; clearbody U V;
    split; intros H.
  - absurd_mod n1 H.
  - absurd_mod n2 H.
  - absurd_mod n2 H.
  - absurd_mod n1 H.
  - absurd_mod n1 H.
  - absurd_mod n3 H.
  - absurd_mod n1 H.
  - absurd_mod n3 H.
  - absurd_mod n2 H.
  - absurd_mod n3 H.
  - absurd_mod n1 H.
  - absurd_mod n3 H.
Qed.

(** With two factors only, a unit [x] that fails Fermat's test gives the
    four classes of [1], of the sign pattern [(-1, 1)], of [x] and of their
    product. *)
Lemma liars_bound_two_factors (x : Z) :
  n3 = 1 -> l <= s -> n - 1 = d * 2 ^ s ->
  Z.gcd x n = 1 -> ~ (n | x ^ (n - 1) - 1) ->
  (4 * length (liars n s d) <= Z.to_nat n)%nat.
Proof.
  intros n3_one l_le n_dec Ux Hx.
  destruct factor_divides as (D1 & D2 & _).
  destruct first_sign_element as (g2 & U2 & A1 & A2 & _).
  pose proof E_pos as HE.
  assert (HW2 : ~ (n | x ^ E * x ^ E - 1)).
  { intros H. apply Hx. rewrite n_dec.
    replace (d * 2 ^ s) with ((E * 2) * 2 ^ (s - l)).
    - rewrite Z.pow_mul_r by (try apply Z.pow_nonneg; lia).
      apply divide_pow_one; [apply Z.pow_nonneg; lia|].
      rewrite Z.pow_mul_r by lia.
      replace ((x ^ E) ^ 2) with (x ^ E * x ^ E) by ring. exact H.
    - unfold E. replace s with ((l - 1) + (1 + (s - l))) at 2 by lia.
      rewrite !Z.pow_add_r by lia. rewrite Z.pow_1_r. ring. }
  assert (UW : Z.gcd n (x ^ E) = 1).
  { rewrite Z.gcd_comm. apply Z.coprime_pow_l; [lia | exact Ux]. }
  assert (HU2 : (n | g2 ^ E * g2 ^ E - 1)).
  { rewrite n_split, n3_one, Z.mul_1_r.
    replace (g2 ^ E * g2 ^ E - 1) with ((g2 ^ E - -1) * (g2 ^ E - 1)) by ring.
    apply divide_mul_both; assumption. }
  set (U := g2 ^ E) in *. set (W := x ^ E) in *.
  assert (HUm : ~ (n | 1 - U)) by (clearbody U W; intros H; absurd_mod n1 H).
  assert (HUp : ~ (n | 1 + U)) by (clearbody U W; intros H; absurd_mod n2 H).
  assert (HWm : ~ (n | 1 - W)).
  { intros H. apply HW2.
    replace (W * W - 1) with ((1 - W) * (- (W + 1))) by ring.
    apply Z.divide_mul_l. exact H. }
  assert (HWp : ~ (n | 1 + W)).
  { intros H. apply HW2.
    replace (W * W - 1) with ((1 + W) * (W - 1)) by ring.
    apply Z.divide_mul_l. exact H. }
  apply (liars_bound_from_units n s d l 1 g2 x (g2 * x)); trivial;
    try lia; try apply Z.gcd_1_l; try (apply unit_mul; assumption);
    fold E; unfold separated; rewrite ?Z.pow_mul_l, ?Z.pow_1_l by lia;
    fold U; fold W; clearbody U W; split; intros H; try contradiction.
  - apply HW2.
    replace (W * W - 1)
      with ((1 - U * W) * (- (U * W + 1)) - (U * U - 1) * (W * W)) by ring.
    divide_linear.
  - apply HW2.
    replace (W * W - 1)
      with ((1 + U * W) * (U * W - 1) - (U * U - 1) * (W * W)) by ring.
    divide_linear.
  - apply HW2.
    replace (W * W - 1) with ((U - W) * (- (W + U)) + (U * U - 1)) by ring.
    divide_linear.
  - apply HW2.
    replace (W * W - 1) with ((U + W) * (W - U) + (U * U - 1)) by ring.
    divide_linear.
  - apply HWm.
    replace (1 - W) with ((U - U * W) * U - (U * U - 1) * (1 - W)) by ring.
    divide_linear.
  - apply HWp.
    replace (1 + W) with ((U + U * W) * U - (U * U - 1) * (1 + W)) by ring.
    divide_linear.
  - apply HUm. apply (Z.gauss n W); [|exact UW].
    replace (W * (1 - U)) with (W - U * W) by ring. exact H.
  - apply HUp. apply (Z.gauss n W); [|exact UW].
    replace (W * (1 + U)) with (W + U * W) by ring. exact H.
Qed.
End Factors.

(** ** Prime powers as factors *)

Lemma prime_pred_decomposition (p : Z) :
  Z.prime p -> 2 < p ->
  p mod 2 = 1 /\ exists u e, 1 <= e /\ 1 <= u /\ u mod 2 = 1 /\ p - 1 = u * 2 ^ e.
Proof.
  intros Hp Hp2.
  assert (Hodd : p mod 2 = 1).
  { destruct (prime_odd_or_small p Hp) as [-> | [-> | [H _]]];
      [lia | reflexivity | exact H]. }
  split; [exact Hodd|].
  destruct (find_r_s_odd (Z.to_nat (Z.log2 p)) p Hodd ltac:(lia))
    as (e & u & _ & Hdec & Hu & He & Hu1).
  { unfold enough_fuel. pose proof (Z.log2_nonneg p). lia. }
  exists u, e. auto.
Qed.

Lemma prime_power_big (p alpha : Z) : 3 <= p -> 1 <= alpha -> 3 <= p ^ alpha.
Proof.
  intros Hp Ha. replace alpha with (Z.succ (alpha - 1)) by lia.
  rewrite Z.pow_succ_r by lia.
  assert (0 < p ^ (alpha - 1)) by (apply Z.pow_pos_nonneg; lia). nia.
Qed.

Lemma prime_divides_power (p alpha : Z) : 1 <= alpha -> (p | p ^ alpha).
Proof.
  intros Ha. replace alpha with (Z.succ (alpha - 1)) by lia.
  rewrite Z.pow_succ_r by lia. apply Z.divide_factor_l.
Qed.

Section PrimePowers.
Variables (n s d p alpha q beta n3 : Z).
Hypothesis n_big : 1 < n.
Hypothesis d_pos : 1 <= d.
Hypothesis d_odd : d mod 2 = 1.
Hypothesis s_pos : 1 <= s.
Hypothesis p_prime : Z.prime p.
Hypothesis q_prime : Z.prime q.
Hypothesis p_odd : 2 < p.
Hypothesis q_odd : 2 < q.
Hypothesis alpha_pos : 1 <= alpha.
Hypothesis beta_pos : 1 <= beta.
Hypothesis n_split : n = p ^ alpha * q ^ beta * n3.
Hypothesis n3_pos : 1 <= n3.
Hypothesis cop12 : Z.gcd (p ^ alpha) (q ^ beta) = 1.
Hypothesis cop13 : Z.gcd (p ^ alpha) n3 = 1.
Hypothesis cop23 : Z.gcd (q ^ beta) n3 = 1.

Lemma prime_powers_setting :
  exists l, 1 <= l <= s
    /\ (forall a j, 0 <= j < s -> (n | a ^ (d * 2 ^ j) + 1) -> j < l)
    /\ (exists y, (p ^ alpha | y ^ (d * 2 ^ (l - 1)) + 1))
    /\ (exists y, (q ^ beta | y ^ (d * 2 ^ (l - 1)) + 1)).
Proof.
  destruct (prime_pred_decomposition p p_prime p_odd)
    as (_ & up & ep & Hep & Hup & Hupo & Hpdec).
  destruct (prime_pred_decomposition q q_prime q_odd)
    as (_ & uq & eq & Heq & Huq & Huqo & Hqdec).
  assert (Hpn : (p | n)).
  { rewrite n_split, <- Z.mul_assoc. apply Z.divide_mul_l.
    apply prime_divides_power. exact alpha_pos. }
  assert (Hqn : (q | n)).
  { rewrite n_split. apply Z.divide_mul_l, Z.divide_mul_r.
    apply prime_divides_power. exact beta_pos. }
  exists (Z.min (Z.min ep eq) s). split; [lia|]. split; [|split].
  - intros a j Hj Hm1.
    pose proof (minus_one_index_bound n p a d j up ep p_prime p_odd Hpn
                  d_pos ltac:(lia) ltac:(lia) Hupo ltac:(lia) Hpdec Hm1).
    pose proof (minus_one_index_bound n q a d j uq eq q_prime q_odd Hqn
                  d_pos ltac:(lia) ltac:(lia) Huqo ltac:(lia) Hqdec Hm1).
    lia.
  - apply (exists_power_m1 p alpha up ep); trivial; lia.
  - apply (exists_power_m1 q beta uq eq); trivial; lia.
Qed.

Lemma liars_bound_three_prime_factors :
  3 <= n3 -> (4 * length (liars n s d) <= Z.to_nat n)%nat.
Proof.
  intros n3_big.
  destruct prime_powers_setting as (l & Hl & Hbound & Hy1 & Hy2).
  apply (liars_bound_three_factors n s d l (p ^ alpha) (q ^ beta) n3);
    trivial; try lia; apply prime_power_big; lia.
Qed.

Lemma liars_bound_two_prime_factors (x : Z) :
  n3 = 1 -> n - 1 = d * 2 ^ s ->
  Z.gcd x n = 1 -> ~ (n | x ^ (n - 1) - 1) ->
  (4 * length (liars n s d) <= Z.to_nat n)%nat.
Proof.
  intros n3_one n_dec Ux Hx.
  destruct prime_powers_setting as (l & Hl & Hbound & Hy1 & Hy2).
  apply (liars_bound_two_factors n s d l (p ^ alpha) (q ^ beta) n3)
    with (x := x); trivial; try lia; apply prime_power_big; lia.
Qed.
End PrimePowers.

(** ** Units that fail Fermat's test *)

Lemma non_fermat_of_square (n p : Z) :
  1 < n -> 1 < p -> (p * p | n) ->
  exists x, Z.gcd x n = 1 /\ ~ (n | x ^ (n - 1) - 1).
Proof.
  intros Hn Hp [k Hk].
  set (c := k * p).
  assert (Hnc : n = c * p) by (unfold c; rewrite Hk; ring).
  assert (Hnil : (n | c * c)) by (exists k; unfold c; rewrite Hk; ring).
  assert (Hc : 0 < c < n) by nia.
  clearbody c.
  exists (1 + 1 * c). split; [apply one_plus_nilpotent_unit; exact Hnil|].
  intros H.
  pose proof (pow_one_plus_nilpotent n c 1 (n - 1) Hnil ltac:(lia)) as Hpw.
  set (X := (1 + 1 * c) ^ (n - 1)) in *. clearbody X.
  assert (Hd : (n | c)).
  { assert (Hlin : (n | (X - (1 + (n - 1) * 1 * c)) - (X - 1) + n * c))
      by (divide_linear; apply Z.divide_factor_l).
    replace ((X - (1 + (n - 1) * 1 * c)) - (X - 1) + n * c) with c in Hlin
      by ring.
    exact Hlin. }
  apply Z.divide_pos_le in Hd; lia.
Qed.

Lemma non_fermat_two_primes (p q : Z) :
  Z.prime p -> Z.prime q -> 2 < p -> p < q ->
  exists x, Z.gcd x (p * q) = 1 /\ ~ (p * q | x ^ (p * q - 1) - 1).
Proof.
  intros Hp Hq Hp2 Hpq.
  destruct (exists_non_root q (p - 1) Hq ltac:(lia)) as (x0 & Hx0 & Hnr).
  assert (Hcop : Z.gcd p q = 1).
  { apply Z.coprime_prime_l; [exact Hp|]. intros Hd.
    apply (Z.divide_prime_prime p q Hp Hq) in Hd. lia. }
  destruct (chinese_remainder p q 1 x0 Hcop) as (x & X1 & X2).
  exists x. split.
  - apply Z.coprime_mul_r; unfold Z.coprime; rewrite Z.gcd_comm.
    + apply Z.coprime_prime_l; [exact Hp|]. intros Hd.
      assert (H1 : (p | 1)).
      { replace 1 with (x - (x - 1)) by ring. apply Z.divide_sub_r; assumption. }
      apply Z.divide_1_r_nonneg in H1; lia.
    + apply Z.coprime_prime_l; [exact Hq|]. intros Hd.
      assert (H1 : (q | x0)).
      { replace x0 with (x - (x - x0)) by ring. apply Z.divide_sub_r; assumption. }
      apply Z.divide_pos_le in H1; lia.
  - intros H.
    assert (Hq1 : (q | x ^ (p * q - 1) - 1)).
    { eapply Z.divide_trans; [|exact H]. exists p. ring. }
    assert (Hq2 : (q | x0 ^ (p * q - 1) - 1)).
    { replace (x0 ^ (p * q - 1) - 1)
        with ((x ^ (p * q - 1) - 1) - (x ^ (p * q - 1) - x0 ^ (p * q - 1)))
        by ring.
      apply Z.divide_sub_r; [exact Hq1|]. apply divide_pow_sub; [nia | exact X2]. }
    assert (Hnz : x0 mod q <> 0) by (rewrite Z.mod_small; lia).
    pose proof (Z.fermat_nz q x0 Hq Hnz) as Hf.
    apply mod_is_one in Hf; [|lia].
    apply Hnr.
    replace (p * q - 1) with ((q - 1) * p + (p - 1)) in Hq2 by ring.
    rewrite Z.pow_add_r, Z.pow_mul_r in Hq2 by nia.
    pose proof (divide_pow_one q _ p ltac:(lia) Hf) as Hfp.
    set (F := (x0 ^ (q - 1)) ^ p) in *. set (R := x0 ^ (p - 1)) in *.
    clearbody F R.
    replace (R - 1) with ((F * R - 1) - (F - 1) * R) by ring.
    divide_linear.
Qed.

(** ** Prime factors *)

Lemma no_divisor_from_complete (p : Z) (count : nat) :
  forall d, 0 < d -> no_divisor_from d count p = false ->
    exists m, d <= m < d + Z.of_nat count /\ (m | p).
Proof.
  induction count as [|count IH]; intros d Hd Hchk; [discriminate|].
  cbn [no_divisor_from] in Hchk. apply andb_false_iff in Hchk.
  destruct Hchk as [Hdiv | Hrest].
  - exists d. split; [lia|]. apply negb_false_iff, Z.eqb_eq in Hdiv.
    apply Z.mod_divide; [lia | exact Hdiv].
  - destruct (IH (d + 1) ltac:(lia) Hrest) as (m & Hm & Hmp).
    exists m. split; [lia | exact Hmp].
Qed.

Lemma prime_or_divisor (n : Z) :
  1 < n -> Z.prime n \/ exists m, 1 < m < n /\ (m | n).
Proof.
  intros Hn. destruct (prime_by_division n) eqn:E.
  - left. apply prime_by_division_sound. exact E.
  - right. unfold prime_by_division in E. apply andb_false_iff in E.
    destruct E as [E | E]; [apply Z.ltb_ge in E; lia|].
    destruct (no_divisor_from_complete n _ 2 ltac:(lia) E) as (m & Hm & Hd).
    exists m. split; [lia | exact Hd].
Qed.

Lemma exists_prime_divisor_upto (bound : nat) :
  forall n, 1 < n <= Z.of_nat bound -> exists p, Z.prime p /\ (p | n).
Proof.
  induction bound as [|bound IH]; intros n Hn; [lia|].
  destruct (prime_or_divisor n ltac:(lia)) as [Hp | (m & Hm & Hd)].
  - exists n. split; [exact Hp | apply Z.divide_refl].
  - destruct (IH m ltac:(lia)) as (p & Hp & Hpm).
    exists p. split; [exact Hp | eapply Z.divide_trans; eauto].
Qed.

Lemma exists_prime_divisor (n : Z) :
  1 < n -> exists p, Z.prime p /\ (p | n).
Proof.
  intros Hn. apply (exists_prime_divisor_upto (Z.to_nat n)). lia.
Qed.

Lemma p_adic_split_upto (p : Z) (bound : nat) :
  1 < p ->
  forall n, 1 <= n <= Z.of_nat bound ->
    exists alpha m, 0 <= alpha /\ 1 <= m /\ n = p ^ alpha * m /\ ~ (p | m).
Proof.
  intros Hp. induction bound as [|bound IH]; intros n Hn; [lia|].
  destruct (Z.eqb_spec (n mod p) 0) as [E | NE].
  - apply Z.mod_divide in E; [|lia]. destruct E as [n' Hn'].
    destruct (IH n' ltac:(nia)) as (alpha & m & Ha & Hm & Hsplit & Hnd).
    exists (alpha + 1), m. repeat split; trivial; [lia|].
    rewrite Z.pow_add_r, Z.pow_1_r by lia. rewrite Hn', Hsplit. ring.
  - exists 0, n. split; [lia|]. split; [lia|].
    split; [rewrite Z.pow_0_r; ring|].
    intros Hd. apply NE. apply Z.mod_divide; [lia | exact Hd].
Qed.

Lemma p_adic_split (p n : Z) :
  Z.prime p -> 1 <= n -> (p | n) ->
  exists alpha m,
    1 <= alpha /\ 1 <= m /\ n = p ^ alpha * m /\ ~ (p | m)
    /\ Z.gcd (p ^ alpha) m = 1.
Proof.
  intros Hp Hn Hpn. pose proof (Z.prime_ge_2 p Hp).
  destruct (p_adic_split_upto p (Z.to_nat n) ltac:(lia) n ltac:(lia))
    as (alpha & m & Ha & Hm & Hsplit & Hnd).
  exists alpha, m.
  assert (alpha <> 0).
  { intros ->. rewrite Z.pow_0_r, Z.mul_1_l in Hsplit. subst m. contradiction. }
  repeat split; trivial; [lia|].
  apply Z.coprime_pow_l; [lia|]. apply Z.coprime_prime_l; assumption.
Qed.

Lemma odd_divisor (n m : Z) : n mod 2 = 1 -> (m | n) -> m mod 2 <> 0.
Proof.
  intros Hn Hm H0. apply Z.mod_divide in H0; [|lia].
  assert (H2 : (2 | n)) by (eapply Z.divide_trans; eauto).
  apply Z.mod_divide in H2; lia.
Qed.

Lemma odd_prime_big (n p : Z) : n mod 2 = 1 -> Z.prime p -> (p | n) -> 2 < p.
Proof.
  intros Hn Hp Hd. pose proof (Z.prime_ge_2 p Hp).
  destruct (Z.eq_dec p 2) as [->|]; [|lia].
  exfalso. apply (odd_divisor n 2 Hn Hd). reflexivity.
Qed.

Lemma coprime_divisor_r (a b c : Z) : Z.gcd a b = 1 -> (c | b) -> Z.gcd a c = 1.
Proof.
  intros Hg [k Hk]. apply Z.bezout_1_gcd.
  destruct (Z.gcd_bezout a b 1 Hg) as (u & v & Huv).
  exists u, (v * k). rewrite <- Huv, Hk. ring.
Qed.

(** ** The two small powers of three *)

Lemma decomposition_8 (s d : Z) :
  1 <= s -> d mod 2 = 1 -> 8 = d * 2 ^ s -> s = 3 /\ d = 1.
Proof.
  intros Hs Hd Hdec.
  destruct (Z.lt_ge_cases s 4) as [Hlt | Hge].
  - assert (Hc : s = 1 \/ s = 2 \/ s = 3) by lia.
    destruct Hc as [-> | [-> | ->]]; cbn in Hdec.
    + assert (d = 4) by lia. subst d. discriminate.
    + assert (d = 2) by lia. subst d. discriminate.
    + lia.
  - assert (2 ^ 4 <= 2 ^ s) by (apply Z.pow_le_mono_r; lia).
    change (2 ^ 4) with 16 in *. destruct (Z.le_gt_cases d 0); nia.
Qed.

Lemma decomposition_26 (s d : Z) :
  1 <= s -> d mod 2 = 1 -> 26 = d * 2 ^ s -> s = 1 /\ d = 13.
Proof.
  intros Hs Hd Hdec.
  destruct (Z.lt_ge_cases s 5) as [Hlt | Hge].
  - assert (Hc : s = 1 \/ s = 2 \/ s = 3 \/ s = 4) by lia.
    destruct Hc as [-> | [-> | [-> | ->]]]; cbn in Hdec; lia.
  - assert (2 ^ 5 <= 2 ^ s) by (apply Z.pow_le_mono_r; lia).
    change (2 ^ 5) with 32 in *. destruct (Z.le_gt_cases d 0); nia.
Qed.

Lemma liars_bound_9 (s d : Z) :
  1 <= s -> d mod 2 = 1 -> 9 - 1 = d * 2 ^ s ->
  (4 * length (liars 9 s d) <= Z.to_nat 9)%nat.
Proof.
  intros Hs Hd Hdec. destruct (decomposition_8 s d Hs Hd Hdec) as [-> ->].
  vm_compute. lia.
Qed.

Lemma liars_bound_27 (s d : Z) :
  1 <= s -> d mod 2 = 1 -> 27 - 1 = d * 2 ^ s ->
  (4 * length (liars 27 s d) <= Z.to_nat 27)%nat.
Proof.
  intros Hs Hd Hdec. destruct (decomposition_26 s d Hs Hd Hdec) as [-> ->].
  vm_compute. lia.
Qed.

(** ** At most a quarter of the residues are strong liars *)

Lemma liars_bound_prime_power (n s d p alpha : Z) :
  1 < n -> ~ Z.prime n -> 1 <= d -> d mod 2 = 1 -> 1 <= s ->
  n - 1 = d * 2 ^ s ->
  Z.prime p -> 2 < p -> 1 <= alpha -> n = p ^ alpha ->
  (4 * length (liars n s d) <= Z.to_nat n)%nat.
Proof.
  intros Hn Hcomp Hd Hdo Hs Hdec Hp Hp2 Ha Hnp.
  assert (Ha2 : 2 <= alpha).
  { destruct (Z.eq_dec alpha 1) as [->|]; [|lia].
    rewrite Z.pow_1_r in Hnp. subst n. contradiction. }
  destruct (Z.le_gt_cases 5 p) as [Hp5 | Hp5].
  - apply (liars_bound_nilpotent n s d (p ^ (alpha - 1)) p); trivial; try lia.
    + rewrite Hnp. replace alpha with ((alpha - 1) + 1) at 1 by lia.
      rewrite Z.pow_add_r, Z.pow_1_r by lia. reflexivity.
    + exists (p ^ (alpha - 2)). rewrite Hnp, <- !Z.pow_add_r by lia.
      f_equal. lia.
    + apply prime_power_big; lia.
  - assert (p = 3).
    { destruct (Z.eq_dec p 4) as [->|]; [|lia].
      exfalso. destruct Hp as [_ Hp]. apply (Hp 2); [lia|]. exists 2. reflexivity. }
    subst p.
    destruct (Z.eq_dec alpha 2) as [->|];
      [subst n; apply liars_bound_9; assumption|].
    destruct (Z.eq_dec alpha 3) as [->|];
      [subst n; apply liars_bound_27; assumption|].
    apply (liars_bound_nilpotent n s d (3 ^ (alpha - 2)) 9); trivial; try lia.
    + rewrite Hnp. replace alpha with ((alpha - 2) + 2) at 1 by lia.
      rewrite Z.pow_add_r by lia. reflexivity.
    + exists (3 ^ (alpha - 4)). rewrite Hnp, <- !Z.pow_add_r by lia.
      f_equal. lia.
    + apply prime_power_big; lia.
Qed.

Theorem liars_quarter (n s d : Z) :
  1 < n -> n mod 2 = 1 -> ~ Z.prime n ->
  1 <= d -> d mod 2 = 1 -> 1 <= s -> n - 1 = d * 2 ^ s ->
  (4 * length (liars n s d) <= Z.to_nat n)%nat.
Proof.
  intros Hn Hodd Hcomp Hd Hdo Hs Hdec.
  destruct (exists_prime_divisor n Hn) as (p & Hp & Hpn).
  pose proof (odd_prime_big n p Hodd Hp Hpn) as Hp2.
  destruct (p_adic_split p n Hp ltac:(lia) Hpn)
    as (alpha & m & Ha & Hm & Hsplit & Hpm & Hcop).
  destruct (Z.eq_dec m 1) as [-> | Hm1].
  - rewrite Z.mul_1_r in Hsplit.
    apply (liars_bound_prime_power n s d p alpha); assumption.
  - destruct (exists_prime_divisor m ltac:(lia)) as (q & Hq & Hqm).
    assert (Hmn : (m | n)) by (exists (p ^ alpha); rewrite Hsplit; ring).
    assert (Hqn : (q | n)) by (eapply Z.divide_trans; eauto).
    pose proof (odd_prime_big n q Hodd Hq Hqn) as Hq2.
    assert (Hpq : p <> q) by (intros ->; contradiction).
    destruct (p_adic_split q m Hq ltac:(lia) Hqm)
      as (beta & m' & Hb & Hm' & Hsplit' & Hqm' & Hcop').
    assert (Hn3 : n = p ^ alpha * q ^ beta * m')
      by (rewrite Hsplit, Hsplit'; ring).
    assert (Hqbm : (q ^ beta | m)) by (exists m'; rewrite Hsplit'; ring).
    assert (Hm'm : (m' | m)) by (exists (q ^ beta); rewrite Hsplit'; ring).
    assert (C12 : Z.gcd (p ^ alpha) (q ^ beta) = 1)
      by (apply (coprime_divisor_r _ m); assumption).
    assert (C13 : Z.gcd (p ^ alpha) m' = 1)
      by (apply (coprime_divisor_r _ m); assumption).
    assert (Hm'n : (m' | n)) by (eapply Z.divide_trans; eauto).
    pose proof (odd_divisor n m' Hodd Hm'n) as Hm'odd.
    destruct (Z.eq_dec m' 1) as [Hone | Hnone].
    + assert (Hx : exists x, Z.gcd x n = 1 /\ ~ (n | x ^ (n - 1) - 1)).
      { destruct (Z.eq_dec alpha 1) as [Ea | Na].
        - destruct (Z.eq_dec beta 1) as [Eb | Nb].
          + subst alpha beta m'. rewrite !Z.pow_1_r, Z.mul_1_r in Hn3.
            destruct (Z.lt_ge_cases p q) as [Hlt | Hge].
            * rewrite Hn3. apply non_fermat_two_primes; assumption.
            * rewrite Hn3, (Z.mul_comm p q).
              apply non_fermat_two_primes; trivial; lia.
          + apply (non_fermat_of_square n q); [lia | lia |].
            exists (p ^ alpha * q ^ (beta - 2) * m'). rewrite Hn3.
            replace beta with ((beta - 2) + 2) at 1 by lia.
            rewrite Z.pow_add_r by lia. ring.
        - apply (non_fermat_of_square n p); [lia | lia |].
          exists (p ^ (alpha - 2) * q ^ beta * m'). rewrite Hn3.
          replace alpha with ((alpha - 2) + 2) at 1 by lia.
          rewrite Z.pow_add_r by lia. ring. }
      destruct Hx as (x & Ux & Hx).
      apply (liars_bound_two_prime_factors n s d p alpha q beta m') with (x := x);
        trivial; lia.
    + apply (liars_bound_three_prime_factors n s d p alpha q beta m');
        trivial; try lia.
      destruct (Z.eq_dec m' 2) as [->|]; [|lia].
      exfalso. apply Hm'odd. reflexivity.
Qed.

(** ** The draws of one trial *)

Lemma Zrange_shift (c lo : Z) (len : nat) :
  map (fun e => c + e) (Zrange lo len) = Zrange (c + lo) len.
Proof.
  unfold Zrange. rewrite map_map. apply map_ext. intros i. lia.
Qed.

Lemma filter_map_length {A B} (f : B -> bool) (g : A -> B) (l : list A) :
  length (filter f (map g l)) = length (filter (fun a => f (g a)) l).
Proof.
  induction l as [|a l IH]; [reflexivity|]. cbn [map filter].
  destruct (f (g a)); cbn [length]; rewrite IH; reflexivity.
Qed.

Lemma liars_split (n s d : Z) :
  3 <= n -> 0 <= d -> d mod 2 = 1 ->
  length (liars n s d) = S (S (length (passing_draws n s d))).
Proof.
  intros Hn Hd Hdo. unfold liars, passing_draws.
  replace (Z.to_nat (n - 1)) with (S (Z.to_nat (n - 3) + 1)) by lia.
  rewrite Zrange_S, Zrange_app. cbn [filter].
  rewrite one_is_liar by lia. cbn [length]. f_equal.
  rewrite filter_app, length_app.
  replace (1 + 1) with (2 + 0) by lia. rewrite <- Zrange_shift.
  rewrite filter_map_length. fold (passes n s d).
  replace (filter (fun a => spec_trial n s d (2 + a)) (Zrange 0 (Z.to_nat (n - 3))))
    with (filter (passes n s d) (Zrange 0 (Z.to_nat (n - 3)))) by reflexivity.
  rewrite Z2Nat.id by lia.
  replace (2 + 0 + (n - 3)) with (n - 1) by lia.
  change (Zrange (n - 1) 1) with [n - 1 + Z.of_nat 0].
  replace (n - 1 + Z.of_nat 0) with (n - 1) by lia.
  cbn [filter]. rewrite minus_one_is_liar by (trivial; lia).
  cbn [length]. lia.
Qed.

(** One trial on an odd composite: at most a quarter of the draws pass. *)
Lemma passing_draws_quarter (n s d : Z) :
  1 < n -> n mod 2 = 1 -> ~ Z.prime n ->
  1 <= d -> d mod 2 = 1 -> 1 <= s -> n - 1 = d * 2 ^ s ->
  4 * Z.of_nat (length (passing_draws n s d)) <= n - 3.
Proof.
  intros Hn Hodd Hcomp Hd Hdo Hs Hdec.
  pose proof (liars_quarter n s d Hn Hodd Hcomp Hd Hdo Hs Hdec) as Hq.
  assert (Hn3 : 3 <= n).
  { destruct (Z.eq_dec n 2) as [->|]; [discriminate | lia]. }
  rewrite liars_split in Hq by (trivial; lia). lia.
Qed.

(** ** The draws of [k] trials *)

Lemma in_draw_vectors (width : Z) (k : nat) (v : list Z) :
  In v (draw_vectors width k) ->
  length v = k /\ Forall (fun e => 0 <= e < width) v.
Proof.
  revert v. induction k as [|k IH]; intros v; cbn [draw_vectors].
  - intros [<- | []]. split; [reflexivity | constructor].
  - rewrite in_flat_map. intros (e & He & Hv).
    apply in_map_iff in Hv. destruct Hv as (v' & <- & Hv').
    destruct (IH v' Hv') as [Hlen Hall]. apply in_Zrange in He.
    split; [cbn; lia | constructor; [lia | exact Hall]].
Qed.

Lemma length_extend (D : list (list Z)) (R : list Z) :
  length (flat_map (fun e => map (cons e) D) R) = (length R * length D)%nat.
Proof.
  induction R as [|e R IH]; [reflexivity|].
  cbn [flat_map length]. rewrite length_app, length_map, IH. reflexivity.
Qed.

Lemma length_draw_vectors (width : Z) (k : nat) :
  0 <= width ->
  Z.of_nat (length (draw_vectors width k)) = width ^ Z.of_nat k.
Proof.
  intros Hw. induction k as [|k IH]; [reflexivity|].
  cbn [draw_vectors]. rewrite Nat2Z.inj_succ, Z.pow_succ_r by lia.
  rewrite <- IH, length_extend, length_Zrange, Nat2Z.inj_mul. lia.
Qed.

(** Among the sequences of [S k] draws, those that pass throughout. *)
Lemma all_pass_count (pass : Z -> bool) (D : list (list Z)) (R : list Z) :
  length (filter (forallb pass) (flat_map (fun e => map (cons e) D) R))
  = (length (filter pass R) * length (filter (forallb pass) D))%nat.
Proof.
  induction R as [|e R IH]; [reflexivity|].
  cbn [flat_map filter]. rewrite filter_app, length_app, IH.
  rewrite filter_map_length. cbn [forallb].
  destruct (pass e); cbn [andb length].
  - replace (filter (fun a => forallb pass a) D) with (filter (forallb pass) D)
      by reflexivity.
    lia.
  - replace (filter (fun _ : list Z => false) D) with (@nil (list Z)).
    + cbn. lia.
    + clear. induction D as [|v D IH]; [reflexivity | exact IH].
Qed.

Lemma all_pass_bound (pass : Z -> bool) (width : Z) (k : nat) :
  0 <= width ->
  4 * Z.of_nat (length (filter pass (Zrange 0 (Z.to_nat width)))) <= width ->
  4 ^ Z.of_nat k
  * Z.of_nat (length (filter (forallb pass) (draw_vectors width k)))
  <= Z.of_nat (length (draw_vectors width k)).
Proof.
  intros Hw Hq. induction k as [|k IH].
  - cbn. lia.
  - rewrite length_draw_vectors in * by exact Hw.
    cbn [draw_vectors]. rewrite all_pass_count.
    rewrite Nat2Z.inj_mul, Nat2Z.inj_succ, !Z.pow_succ_r by lia.
    set (P := Z.of_nat (length (filter pass (Zrange 0 (Z.to_nat width))))) in *.
    set (F := Z.of_nat (length (filter (forallb pass) (draw_vectors width k)))) in *.
    assert (0 <= P) by (unfold P; lia). assert (0 <= F) by (unfold F; lia).
    assert (0 <= 4 ^ Z.of_nat k) by (apply Z.pow_nonneg; lia).
    clearbody P F. nia.
Qed.

(** ** The program on sequences of draws *)

Lemma verdict_is_pass (fuel : nat) (n s r : Z) (v : list Z) (i : nat) :
  3 < n -> 0 <= r -> (Z.to_nat (s - 1) <= fuel)%nat ->
  Forall (fun e => 0 <= e < n - 3) v -> (i < length v)%nat ->
  trial_verdict fuel n s r (tape_of v) i = passes n s r (nth i v 0).
Proof.
  intros Hn Hr Hfuel Hall Hi.
  rewrite trial_verdict_spec by assumption.
  unfold passes, witness_at, tape_of. f_equal. f_equal.
  rewrite Forall_forall in Hall.
  pose proof (Hall (nth i v 0) (nth_In v 0 Hi)).
  apply Z.mod_small. lia.
Qed.

Lemma answers_true_all_pass (fuel : nat) (n k s r : Z) (v : list Z) :
  n mod 2 = 1 -> 3 < n -> 0 <= r -> (Z.to_nat (s - 1) <= fuel)%nat ->
  (forall tape pos, is_prime_miller_rabin fuel n k tape pos
                    = is_prime_trials fuel (range_len k) n s r tape pos) ->
  length v = range_len k -> Forall (fun e => 0 <= e < n - 3) v ->
  answers_true fuel n k v = forallb (passes n s r) v.
Proof.
  intros Hodd Hn Hr Hfuel Hprog Hlen Hall.
  unfold answers_true. rewrite Hprog.
  assert (Hc : forall p, miller_rabin_rand_test fuel n s r (tape_of v) p
                         = Ok (trial_verdict fuel n s r (tape_of v) p, S p))
    by (intros p; apply rand_test_verdict; assumption).
  destruct (verdicts_cases fuel n s r (tape_of v) (range_len k) 0)
    as [Htrue | (i & Hi & Hbefore & Hfalse)].
  - rewrite (trials_all_true fuel n s r (tape_of v) Hc _ 0%nat Htrue).
    symmetry. apply forallb_forall. intros e He.
    destruct (In_nth v e 0 He) as (i & Hi & <-).
    rewrite <- (verdict_is_pass fuel) by assumption.
    apply (Htrue i). lia.
  - rewrite (trials_first_false fuel n s r (tape_of v) Hc _ 0%nat i Hi Hbefore Hfalse).
    destruct (forallb (passes n s r) v) eqn:E; [exfalso | reflexivity].
    rewrite forallb_forall in E.
    cbn [Nat.add] in Hfalse.
    rewrite (verdict_is_pass fuel) in Hfalse by (trivial; lia).
    rewrite E in Hfalse; [discriminate|]. apply nth_In. lia.
Qed.

(** C8: on a composite [n] with [k >= 1] trials, the [k] witnesses being
    drawn uniformly and independently, the program answers [true] with
    probability at most [4 ^ (- k)]: among the [(n - 3) ^ k] equally likely
    sequences of [k] raw draws, those on which it answers [true] number at
    most the fraction [4 ^ (- k)]. *)
Theorem composite_error_bound (fuel : nat) (n k : Z) :
  1 < n -> ~ Z.prime n -> 1 <= k -> enough_fuel fuel n ->
  let outcomes := draw_vectors (n - 3) (range_len k) in
  let accepted := filter (answers_true fuel n k) outcomes in
  Z.of_nat (length outcomes) = (n - 3) ^ k
  /\ 0 < Z.of_nat (length outcomes)
  /\ 4 ^ k * Z.of_nat (length accepted) <= Z.of_nat (length outcomes).
Proof.
  intros Hn Hcomp Hk Hfuel outcomes accepted.
  assert (Hn4 : 4 <= n).
  { destruct (Z.eq_dec n 2) as [->|]; [exfalso; apply Hcomp, Z.prime_2|].
    destruct (Z.eq_dec n 3) as [->|]; [exfalso; apply Hcomp, Z.prime_3|]. lia. }
  assert (Hlen : Z.of_nat (length outcomes) = (n - 3) ^ k).
  { unfold outcomes, range_len. rewrite length_draw_vectors, Z2Nat.id by lia.
    reflexivity. }
  split; [exact Hlen|]. split; [rewrite Hlen; apply Z.pow_pos_nonneg; lia|].
  assert (Hslow : n mod 2 = 1 /\ 3 < n \/ ~ (n mod 2 = 1 /\ 3 < n)) by lia.
  destruct Hslow as [[Hodd Hn3] | Hfast].
  - destruct (is_prime_after_decomposition fuel n k (fun _ => 0) 0%nat Hodd Hn3 Hfuel)
      as (s & r & E & Hdec & Hro & Hs & Hr & Hin & _).
    assert (Hprog : forall tape pos,
               is_prime_miller_rabin fuel n k tape pos
               = is_prime_trials fuel (range_len k) n s r tape pos).
    { intros tape pos. rewrite is_prime_slow_path by assumption.
      unfold bind, lift. rewrite E. reflexivity. }
    assert (Heq : accepted = filter (forallb (passes n s r)) outcomes).
    { unfold accepted. apply filter_ext_in. intros v Hv.
      apply in_draw_vectors in Hv. destruct Hv as [Hvl Hva].
      apply (answers_true_all_pass fuel n k s r); trivial; lia. }
    rewrite Heq. unfold outcomes.
    replace k with (Z.of_nat (range_len k)) at 1 by (unfold range_len; lia).
    apply all_pass_bound; [lia|].
    apply (passing_draws_quarter n s r); trivial; lia.
  - assert (Heq : accepted = []).
    { unfold accepted. generalize outcomes. intros l.
      induction l as [|v l IH]; [reflexivity|]. cbn [filter].
      unfold answers_true at 1. rewrite is_prime_fast_path by exact Hfast.
      destruct (Z.eqb_spec n 2); [lia|]. destruct (Z.eqb_spec n 3); [lia|].
      exact IH. }
    rewrite Heq. cbn [length]. rewrite Z.mul_0_r. lia.
Qed.

Lemma composite_error_bound_witness :
  let outcomes := draw_vectors (25 - 3) (range_len 2) in
  let accepted := filter (answers_true 5 25 2) outcomes in
  Z.of_nat (length outcomes) = (25 - 3) ^ 2
  /\ 0 < Z.of_nat (length outcomes)
  /\ 4 ^ 2 * Z.of_nat (length accepted) <= Z.of_nat (length outcomes).
Proof.
  apply (composite_error_bound 5%nat 25 2);
    [ lia
    | intros [_ H]; apply (H 5); [lia | exists 5; reflexivity]
    | lia
    | unfold enough_fuel; cbn; lia ].
Defined.

(** * Further properties of the program *)

(** ** The decomposer on arbitrary input *)

Lemma even_times_pow2 (r : Z) (k : nat) :
  (r * 2 ^ Z.of_nat (S k)) mod 2 = 0
  /\ r * 2 ^ Z.of_nat (S k) / 2 = r * 2 ^ Z.of_nat k.
Proof.
  rewrite Nat2Z.inj_succ, Z.pow_succ_r by lia.
  replace (r * (2 * 2 ^ Z.of_nat k)) with (r * 2 ^ Z.of_nat k * 2) by ring.
  split; [apply Z.mod_mul | apply Z.div_mul]; lia.
Qed.

Lemma find_loop_on_power (k : nat) :
  forall fuel s0 r, r mod 2 = 1 -> (k <= fuel)%nat ->
    find_miller_rabin_r_s_loop fuel s0 (r * 2 ^ Z.of_nat k)
    = Ok (s0 + Z.of_nat k, r).
Proof.
  induction k as [|k IH]; intros fuel s0 r Hr Hfuel.
  - cbn [Z.of_nat]. rewrite Z.pow_0_r, Z.mul_1_r, Z.add_0_r.
    destruct fuel; cbn [find_miller_rabin_r_s_loop];
      destruct (Z.land r 1 =? 0) eqn:G; try reflexivity;
      apply find_loop_guard in G; lia.
  - destruct fuel as [|fuel]; [lia|]. cbn [find_miller_rabin_r_s_loop].
    destruct (even_times_pow2 r k) as [Heven Hhalf].
    apply find_loop_guard in Heven. rewrite Heven, Hhalf.
    rewrite IH by (trivial; lia). f_equal. f_equal. lia.
Qed.

Lemma find_loop_short_budget (fuel : nat) :
  forall (k : nat) s0 r, (fuel < k)%nat ->
    find_miller_rabin_r_s_loop fuel s0 (r * 2 ^ Z.of_nat k) = OutOfFuel.
Proof.
  induction fuel as [|fuel IH]; intros k s0 r Hk;
    (destruct k as [|k]; [lia|]); cbn [find_miller_rabin_r_s_loop];
    destruct (even_times_pow2 r k) as [Heven Hhalf];
    apply find_loop_guard in Heven; rewrite Heven; [reflexivity|].
  rewrite Hhalf. apply IH. lia.
Qed.

(** X1: the decomposer inverts [(s, r) |-> r * 2 ^ s + 1]: for odd [r]
    (of either sign) and [s >= 0] it returns [(s, r)] on every budget of at
    least [s] iterations, and runs out of every smaller budget; the loop
    makes exactly [s] iterations. *)
Theorem find_r_s_inverts (fuel : nat) (s r : Z) :
  r mod 2 = 1 -> 0 <= s ->
  find_miller_rabin_r_s fuel (r * 2 ^ s + 1)
  = if (Z.to_nat s <=? fuel)%nat then Ok (s, r) else OutOfFuel.
Proof.
  intros Hr Hs. unfold find_miller_rabin_r_s.
  replace (r * 2 ^ s + 1 - 1) with (r * 2 ^ Z.of_nat (Z.to_nat s))
    by (rewrite Z2Nat.id by lia; ring).
  destruct (Nat.leb_spec (Z.to_nat s) fuel) as [Hfuel | Hfuel].
  - rewrite find_loop_on_power by assumption. f_equal. f_equal. lia.
  - apply find_loop_short_budget. exact Hfuel.
Qed.

Lemma find_r_s_inverts_witness :
  find_miller_rabin_r_s 3 (-5 * 2 ^ 3 + 1)
  = if (Z.to_nat 3 <=? 3)%nat then Ok (3, -5) else OutOfFuel.
Proof. apply (find_r_s_inverts 3%nat 3 (-5)); [reflexivity | lia]. Defined.

(** X2: the decomposer completes on every input but [1], also on even and
    on negative ones: a budget of [log2 |n - 1|] is enough, and the pair
    returned has [s >= 0], [r] odd and [r * 2 ^ s = n - 1].  On an even
    input the loop is not entered: the answer is [(0, n - 1)] on any
    budget. *)
Theorem find_r_s_total (fuel : nat) (n : Z) :
  n <> 1 -> Z.log2 (Z.abs (n - 1)) <= Z.of_nat fuel ->
  (exists s r, find_miller_rabin_r_s fuel n = Ok (s, r)
     /\ 0 <= s /\ r mod 2 = 1 /\ r * 2 ^ s = n - 1)
  /\ (forall m fuel', find_miller_rabin_r_s fuel' (2 * m) = Ok (0, 2 * m - 1)).
Proof.
  intros Hn Hfuel. split.
  - unfold find_miller_rabin_r_s.
    destruct (find_loop_terminates fuel 0 (n - 1) ltac:(lia) Hfuel)
      as (s & r & E).
    exists s, r. split; [exact E|].
    apply find_loop_sound in E. destruct E as (Hs & Hr & Ho).
    rewrite Z.sub_0_r in Hr. auto.
  - intros m fuel'. unfold find_miller_rabin_r_s.
    assert (G : (Z.land (2 * m - 1) 1 =? 0) = false).
    { destruct (Z.land (2 * m - 1) 1 =? 0) eqn:G; [|reflexivity].
      apply find_loop_guard in G.
      rewrite Zminus_mod, Z.mul_comm, Z.mod_mul in G by lia. discriminate. }
    destruct fuel'; cbn [find_miller_rabin_r_s_loop]; rewrite G; reflexivity.
Qed.

Lemma find_r_s_total_witness :
  (exists s r, find_miller_rabin_r_s 3 (-11) = Ok (s, r)
     /\ 0 <= s /\ r mod 2 = 1 /\ r * 2 ^ s = -11 - 1)
  /\ (forall m fuel', find_miller_rabin_r_s fuel' (2 * m) = Ok (0, 2 * m - 1)).
Proof. apply (find_r_s_total 3%nat (-11)); [lia | cbn; lia]. Defined.

(** ** Exceptions *)

(** X3: called with [n <= 3] the witness test raises [ValueError]: the
    range [range(2, n - 1)] of [randrange] is empty.  The caller's fast
    path is what keeps such [n] away from it. *)
Theorem rand_test_empty_range (fuel : nat) (n s r : Z) tape (pos : nat) :
  n <= 3 -> miller_rabin_rand_test fuel n s r tape pos = ValueError.
Proof.
  intros Hn. unfold miller_rabin_rand_test, bind, randrange.
  destruct (Z.ltb_spec 2 (n - 1)); [lia | reflexivity].
Qed.

Lemma rand_test_empty_range_witness :
  miller_rabin_rand_test 5 3 1 1 zero_tape 0%nat = ValueError.
Proof. apply (rand_test_empty_range 5%nat 3 1 1 zero_tape 0%nat). lia. Defined.

Lemma test_loop_no_error (n s : Z) (fuel : nat) :
  n <> 0 ->
  forall j x, miller_rabin_rand_test_loop fuel n s j x <> ValueError.
Proof.
  intros Hn. induction fuel as [|fuel IH]; intros j x;
    cbn [miller_rabin_rand_test_loop];
    destruct ((j <? s) && negb (x =? n - 1)); try discriminate.
  rewrite pow_ok by lia.
  destruct (x ^ 2 mod n =? 1); [discriminate | apply IH].
Qed.

Lemma test_with_no_error (fuel : nat) (n s r a : Z) :
  n <> 0 -> 0 <= r -> miller_rabin_test_with fuel n s r a <> ValueError.
Proof.
  intros Hn Hr. unfold miller_rabin_test_with. rewrite pow_ok by assumption.
  destruct (negb (a ^ r mod n =? 1) && negb (a ^ r mod n =? n - 1));
    [|discriminate].
  pose proof (test_loop_no_error n s fuel Hn 1 (a ^ r mod n)) as Hl.
  destruct (miller_rabin_rand_test_loop fuel n s 1 (a ^ r mod n)) as [[b|j x]| |];
    try discriminate; [|contradiction].
  destruct (negb (x =? n - 1)); discriminate.
Qed.

Lemma trials_no_error (fuel : nat) (n s r : Z) tape (count : nat) :
  3 < n -> 0 <= r ->
  forall pos, is_prime_trials fuel count n s r tape pos <> ValueError.
Proof.
  intros Hn Hr. induction count as [|count IH]; intros pos;
    cbn [is_prime_trials]; [discriminate|].
  unfold bind. rewrite rand_test_draws by exact Hn.
  pose proof (test_with_no_error fuel n s r (witness_at tape pos n)
                ltac:(lia) Hr) as Ht.
  destruct (miller_rabin_test_with fuel n s r (witness_at tape pos n)) as [b| |];
    try discriminate; [|contradiction].
  destruct (negb b); [discriminate | apply IH].
Qed.

Lemma find_loop_no_error (fuel : nat) :
  forall s r, find_miller_rabin_r_s_loop fuel s r <> ValueError.
Proof.
  induction fuel as [|fuel IH]; intros s r; cbn [find_miller_rabin_r_s_loop];
    destruct (Z.land r 1 =? 0); try discriminate. apply IH.
Qed.

(** X4: the program never raises: on every [n], [k], budget and generator
    its outcome is a value or an exhausted budget, never [ValueError]. *)
Theorem is_prime_never_raises (fuel : nat) (n k : Z) tape (pos : nat) :
  is_prime_miller_rabin fuel n k tape pos <> ValueError.
Proof.
  assert (Hslow : n mod 2 = 1 /\ 3 < n \/ ~ (n mod 2 = 1 /\ 3 < n)) by lia.
  destruct Hslow as [[Hodd Hn] | Hfast].
  - rewrite is_prime_slow_path by assumption. unfold bind, lift.
    unfold find_miller_rabin_r_s.
    pose proof (find_loop_no_error fuel 0 (n - 1)) as Hf.
    destruct (find_miller_rabin_r_s_loop fuel 0 (n - 1)) as [[s r]| |] eqn:E;
      try discriminate; [|contradiction].
    apply find_loop_sound in E. destruct E as (Hs & Hr & _).
    apply trials_no_error; [exact Hn|].
    rewrite Z.sub_0_r in Hr.
    assert (0 < 2 ^ s) by (apply Z.pow_pos_nonneg; lia). nia.
  - rewrite is_prime_fast_path by exact Hfast. discriminate.
Qed.

(** ** What a passing witness shows *)




(** The converse fails: [2] is a Fermat liar of the Carmichael number
    [561], and the test rejects it. *)
Example fermat_liar_rejected :
  2 ^ (561 - 1) mod 561 = 1 /\ miller_rabin_test_with 4 561 4 35 2 = Ok false.
Proof. split; vm_compute; reflexivity. Qed.

(** X6: the bases [1] and [n - 1] pass the test of every [n > 1], whatever
    [s] and the budget, [n - 1] for odd [r]: they never show that [n] is
    composite, and the draw from [[2, n - 2]] leaves them out. *)
Theorem trivial_bases_pass (fuel : nat) (n s r : Z) :
  1 < n -> 0 <= r -> r mod 2 = 1 ->
  miller_rabin_test_with fuel n s r 1 = Ok true
  /\ miller_rabin_test_with fuel n s r (n - 1) = Ok true.
Proof.
  intros Hn Hr Hodd. unfold miller_rabin_test_with.
  rewrite !pow_ok by lia. split.
  - rewrite Z.pow_1_l, Z.mod_1_l, Z.eqb_refl by lia. reflexivity.
  - assert (E : (n - 1) ^ r mod n = n - 1).
    { assert (Hc : (n | (n - 1) ^ r - (-1) ^ r)).
      { apply divide_pow_sub; [exact Hr|]. exists 1. ring. }
      rewrite pow_m1_of_odd in Hc by assumption.
      apply mod_eq_divide in Hc; [|lia]. rewrite Hc.
      replace (-1) with (n - 1 + (-1) * n) by ring.
      rewrite Z.mod_add, Z.mod_small by lia. reflexivity. }
    rewrite E, Z.eqb_refl, andb_false_r. reflexivity.
Qed.

Lemma trivial_bases_pass_witness :
  miller_rabin_test_with 0 9 3 1 1 = Ok true
  /\ miller_rabin_test_with 0 9 3 1 (9 - 1) = Ok true.
Proof. apply (trivial_bases_pass 0%nat 9 3 1); [lia | lia | reflexivity]. Defined.

(** ** Symmetry of the test *)

Lemma pow_opposite_mod (n a r : Z) :
  0 < n -> 0 <= r -> r mod 2 = 1 ->
  (n - a) ^ r mod n = (n - a ^ r mod n) mod n.
Proof.
  intros Hn Hr Hodd.
  assert (Hc : (n | (n - a) ^ r - (- a) ^ r)).
  { apply divide_pow_sub; [exact Hr|]. exists 1. ring. }
  apply mod_eq_divide in Hc; [|lia]. rewrite Hc.
  replace (- a) with (-1 * a) by ring.
  rewrite Z.pow_mul_l, pow_m1_of_odd by assumption.
  apply mod_eq_divide; [lia|].
  pose proof (Z.div_mod (a ^ r) n ltac:(lia)) as Hdm.
  exists (- (a ^ r / n) - 1). lia.
Qed.

Lemma square_opposite_mod (n x : Z) :
  0 < n -> ((n - x) mod n) ^ 2 mod n = x ^ 2 mod n.
Proof.
  intros Hn. rewrite Z.mod_pow_l. apply mod_eq_divide; [lia|].
  exists (n - 2 * x). ring.
Qed.

Lemma test_loop_same_square (fuel : nat) (n s x y : Z) :
  n <> 0 -> x <> n - 1 -> y <> n - 1 -> x ^ 2 mod n = y ^ 2 mod n ->
  match miller_rabin_rand_test_loop fuel n s 1 x with
  | Ok e => Ok (after_loop n e)
  | ValueError => ValueError
  | OutOfFuel => OutOfFuel
  end
  = match miller_rabin_rand_test_loop fuel n s 1 y with
    | Ok e => Ok (after_loop n e)
    | ValueError => ValueError
    | OutOfFuel => OutOfFuel
    end.
Proof.
  intros Hn Hx Hy Hsq.
  destruct fuel as [|fuel]; cbn [miller_rabin_rand_test_loop];
    destruct (Z.eqb_spec x (n - 1)); try contradiction;
    destruct (Z.eqb_spec y (n - 1)); try contradiction;
    destruct (1 <? s); cbn [andb negb after_loop];
    try (destruct (Z.eqb_spec x (n - 1)); try contradiction;
         destruct (Z.eqb_spec y (n - 1)); try contradiction);
    try reflexivity.
  rewrite !pow_ok, Hsq by lia. reflexivity.
Qed.

Lemma test_with_after_loop (fuel : nat) (n s r a : Z) :
  n <> 0 -> 0 <= r ->
  miller_rabin_test_with fuel n s r a
  = if negb (a ^ r mod n =? 1) && negb (a ^ r mod n =? n - 1)
    then match miller_rabin_rand_test_loop fuel n s 1 (a ^ r mod n) with
         | Ok e => Ok (after_loop n e)
         | ValueError => ValueError
         | OutOfFuel => OutOfFuel
         end
    else Ok true.
Proof.
  intros Hn Hr. unfold miller_rabin_test_with. rewrite pow_ok by assumption.
  destruct (negb (a ^ r mod n =? 1) && negb (a ^ r mod n =? n - 1));
    [|reflexivity].
  destruct (miller_rabin_rand_test_loop fuel n s 1 (a ^ r mod n))
    as [[b|j x]| |]; try reflexivity.
  cbn [after_loop]. destruct (negb (x =? n - 1)); reflexivity.
Qed.

(** X7: for odd [r] the test gives [a] and [n - a] the same outcome, on
    every budget: the witnesses that pass come in pairs, and so do those
    that prove [n] composite. *)
Theorem opposite_witness_same_outcome (fuel : nat) (n s r a : Z) :
  0 < n -> 0 <= r -> r mod 2 = 1 ->
  miller_rabin_test_with fuel n s r (n - a) = miller_rabin_test_with fuel n s r a.
Proof.
  intros Hn Hr Hodd.
  rewrite !test_with_after_loop by lia.
  rewrite pow_opposite_mod by assumption.
  set (x := a ^ r mod n).
  assert (Hx : 0 <= x < n) by (apply Z.mod_pos_bound; lia).
  clearbody x.
  destruct (Z.eq_dec x 0) as [-> | Hx0].
  - rewrite Z.sub_0_r, Z.mod_same by lia. reflexivity.
  - rewrite (Z.mod_small (n - x)) by lia.
    destruct (Z.eqb_spec x 1) as [-> | Hx1].
    + rewrite Z.eqb_refl, andb_false_r. reflexivity.
    + destruct (Z.eqb_spec x (n - 1)) as [-> | Hxm].
      * replace (n - (n - 1)) with 1 by ring. reflexivity.
      * destruct (Z.eqb_spec (n - x) 1); [lia|].
        destruct (Z.eqb_spec (n - x) (n - 1)); [lia|].
        cbn [negb andb].
        apply test_loop_same_square; try lia.
        rewrite <- (square_opposite_mod n x) by lia.
        rewrite (Z.mod_small (n - x)) by lia. reflexivity.
Qed.

Lemma opposite_witness_same_outcome_witness :
  miller_rabin_test_with 2 25 3 3 (25 - 7) = miller_rabin_test_with 2 25 3 3 7.
Proof.
  apply (opposite_witness_same_outcome 2%nat 25 3 3 7); [lia | lia | reflexivity].
Defined.

(** ** More trials *)

Lemma trials_stay_false (fuel : nat) (n s r : Z) tape (count : nat) :
  forall count' pos p, (count <= count')%nat ->
    is_prime_trials fuel count n s r tape pos = Ok (false, p) ->
    is_prime_trials fuel count' n s r tape pos = Ok (false, p).
Proof.
  induction count as [|count IH]; intros count' pos p Hle;
    cbn [is_prime_trials]; [discriminate|].
  destruct count' as [|count']; [lia|]. cbn [is_prime_trials]. unfold bind.
  destruct (miller_rabin_rand_test fuel n s r tape pos) as [[b q]| |];
    try discriminate.
  destruct (negb b); [auto|]. apply IH. lia.
Qed.

Lemma trials_were_true (fuel : nat) (n s r : Z) tape (count' : nat) :
  forall count pos p', (count <= count')%nat ->
    is_prime_trials fuel count' n s r tape pos = Ok (true, p') ->
    exists p, is_prime_trials fuel count n s r tape pos = Ok (true, p).
Proof.
  induction count' as [|count' IH]; intros count pos p' Hle.
  - replace count with 0%nat by lia. intros H. exists p'. exact H.
  - destruct count as [|count]; [intros _; exists pos; reflexivity|].
    cbn [is_prime_trials]. unfold bind.
    destruct (miller_rabin_rand_test fuel n s r tape pos) as [[b q]| |];
      try discriminate.
    destruct (negb b); [discriminate|]. apply IH. lia.
Qed.

Lemma fewer_trials_still_true (fuel : nat) (n k k' : Z) tape (pos p' : nat) :
  k <= k' ->
  is_prime_miller_rabin fuel n k' tape pos = Ok (true, p') ->
  exists p, is_prime_miller_rabin fuel n k tape pos = Ok (true, p).
Proof.
  intros Hk. unfold is_prime_miller_rabin.
  destruct ((n =? 2) || (n =? 3)); [intros H; exists p'; exact H|].
  destruct ((n <=? 1) || (n mod 2 =? 0)); [intros H; exists p'; exact H|].
  unfold bind, lift.
  destruct (find_miller_rabin_r_s fuel n) as [[s r]| |]; try discriminate.
  apply trials_were_true. unfold range_len. lia.
Qed.

(** X8: on the same draws more trials can only add doubt: an answer
    [false] with [k] trials is the answer, after the same number of draws,
    with every [k' >= k]. *)
Theorem more_trials_more_doubt (fuel : nat) (n k k' : Z) tape (pos p : nat) :
  k <= k' ->
  is_prime_miller_rabin fuel n k tape pos = Ok (false, p) ->
  is_prime_miller_rabin fuel n k' tape pos = Ok (false, p).
Proof.
  intros Hk. unfold is_prime_miller_rabin.
  destruct ((n =? 2) || (n =? 3)); [auto|].
  destruct ((n <=? 1) || (n mod 2 =? 0)); [auto|].
  unfold bind, lift.
  destruct (find_miller_rabin_r_s fuel n) as [[s r]| |]; try discriminate.
  apply trials_stay_false. unfold range_len. lia.
Qed.

Lemma more_trials_more_doubt_witness :
  is_prime_miller_rabin 7 133 2 (fun i => if Nat.eqb i 0 then 9 else 0) 0%nat
  = Ok (false, 2%nat)
  /\ is_prime_miller_rabin 7 133 128 (fun i => if Nat.eqb i 0 then 9 else 0) 0%nat
     = Ok (false, 2%nat).
Proof.
  split; [reflexivity|].
  apply (more_trials_more_doubt 7%nat 133 2 128
           (fun i => if Nat.eqb i 0 then 9 else 0) 0%nat 2%nat);
    [lia | reflexivity].
Defined.

(** ** A generator stuck on a strong liar *)

(** X9: an answer [true] is not definitive.  For [n] odd and above [3],
    decomposed into [(s, r)], and a generator all of whose draws pass the
    test, the program answers [true] after [k] draws, for every [k]; that
    happens on the composite [25] when every draw is [7]. *)
Theorem liar_draws_accept (fuel : nat) (n k s r : Z) tape (pos : nat) :
  n mod 2 = 1 -> 3 < n -> find_miller_rabin_r_s fuel n = Ok (s, r) ->
  (forall p, miller_rabin_test_with fuel n s r (witness_at tape p n) = Ok true) ->
  is_prime_miller_rabin fuel n k tape pos = Ok (true, (pos + range_len k)%nat).
Proof.
  intros Hodd Hn Hfind Hpass.
  rewrite is_prime_slow_path by assumption. unfold bind, lift. rewrite Hfind.
  assert (Hc : forall p, miller_rabin_rand_test fuel n s r tape p
                         = Ok (trial_verdict fuel n s r tape p, S p)).
  { intros p. unfold trial_verdict. rewrite rand_test_draws, Hpass by exact Hn.
    reflexivity. }
  apply trials_all_true; [exact Hc|].
  intros i _. unfold trial_verdict.
  rewrite rand_test_draws, Hpass by exact Hn. reflexivity.
Qed.

Lemma liar_draws_accept_witness :
  ~ Z.prime 25
  /\ is_prime_miller_rabin 5 25 128 (fun _ => 5) 0%nat
     = Ok (true, (0 + range_len 128)%nat).
Proof.
  split; [intros [_ H]; apply (H 5); [lia | exists 5; reflexivity]|].
  apply (liar_draws_accept 5%nat 25 128 3 3 (fun _ => 5) 0%nat);
    [reflexivity | lia | reflexivity | intros p; vm_compute; reflexivity].
Defined.

(** ** The self-test *)

Lemma is_prime_completes (fuel : nat) (n k : Z) tape (pos : nat) :
  enough_fuel fuel n ->
  exists b pos', is_prime_miller_rabin fuel n k tape pos = Ok (b, pos').
Proof.
  intros Hfuel.
  assert (Hslow : n mod 2 = 1 /\ 3 < n \/ ~ (n mod 2 = 1 /\ 3 < n)) by lia.
  destruct Hslow as [[Hodd Hn] | Hfast].
  - destruct (is_prime_after_decomposition fuel n k tape pos Hodd Hn Hfuel)
      as (s & r & E & Hdec & _ & Hs & Hr & Hin & ->).
    assert (Hc : forall p, miller_rabin_rand_test fuel n s r tape p
                           = Ok (trial_verdict fuel n s r tape p, S p))
      by (intros p; apply rand_test_verdict; trivial; lia).
    destruct (verdicts_cases fuel n s r tape (range_len k) pos)
      as [Hall | (i & Hi & Hbefore & Hfalse)].
    + rewrite (trials_all_true fuel n s r tape Hc _ pos Hall). eauto.
    + rewrite (trials_first_false fuel n s r tape Hc _ pos i Hi Hbefore Hfalse).
      eauto.
  - rewrite is_prime_fast_path by exact Hfast. eauto.
Qed.

Lemma basic_prime_accepted (fuel : nat) (p : Z) tape (pos : nat) :
  In p basic_primes -> (7 <= fuel)%nat ->
  exists pos', is_prime_miller_rabin fuel p default_k tape pos = Ok (true, pos').
Proof.
  intros Hin Hfuel. eexists. apply is_prime_on_prime.
  - apply prime_by_division_sound. cbn in Hin.
    repeat (destruct Hin as [<- | Hin]; [vm_compute; reflexivity|]).
    contradiction.
  - unfold enough_fuel. cbn in Hin.
    repeat (destruct Hin as [<- | Hin]; [cbn; lia|]).
    contradiction.
Qed.

(** No witness in [[2, 7]] passes the test of [9]. *)
Lemma nine_rejected (fuel : nat) tape (pos : nat) (b : bool) (pos' : nat) :
  (7 <= fuel)%nat ->
  is_prime_miller_rabin fuel 9 default_k tape pos = Ok (b, pos') -> b = false.
Proof.
  intros Hfuel.
  destruct (is_prime_after_decomposition fuel 9 default_k tape pos)
    as (s & r & E & Hdec & Hro & Hs & Hr & Hin & ->);
    [reflexivity | lia | unfold enough_fuel; cbn; lia |].
  assert (Hsr : s = 3 /\ r = 1).
  { apply decomposition_8; trivial. rewrite Z.mul_comm in Hdec.
    rewrite Z.mul_comm. lia. }
  destruct Hsr as [-> ->].
  assert (Hc : forall p, miller_rabin_rand_test fuel 9 3 1 tape p
                         = Ok (trial_verdict fuel 9 3 1 tape p, S p))
    by (intros p; apply rand_test_verdict; lia).
  rewrite (trials_first_false fuel 9 3 1 tape Hc _ pos 0%nat).
  - intros [= <- _]. reflexivity.
  - unfold default_k, range_len. lia.
  - intros j Hj. lia.
  - rewrite trial_verdict_spec by lia.
    pose proof (witness_at_range tape (pos + 0) 9 ltac:(lia)) as Hw.
    set (a := witness_at tape (pos + 0) 9) in *. clearbody a.
    assert (Ha : a = 2 \/ a = 3 \/ a = 4 \/ a = 5 \/ a = 6 \/ a = 7) by lia.
    destruct Ha as [-> | [-> | [-> | [-> | [-> | ->]]]]]; reflexivity.
Qed.

Lemma check_primes_silent (fuel : nat) tape (ps : list Z) :
  (7 <= fuel)%nat -> incl ps basic_primes ->
  forall w, exists pos',
    Script.check_primes fuel ps tape w
    = Ok (None, Script.World pos' (Script.stdout w)).
Proof.
  intros Hfuel. induction ps as [|p ps IH]; intros Hincl w.
  - exists (Script.gen_pos w). destruct w. reflexivity.
  - cbn [Script.check_primes]. unfold Script.io_bind, Script.run.
    destruct (basic_prime_accepted fuel p tape (Script.gen_pos w)
                (Hincl p (or_introl eq_refl)) Hfuel) as (pos1 & ->).
    cbn [negb].
    destruct (IH (fun x Hx => Hincl x (or_intror Hx))
                 (Script.World pos1 (Script.stdout w))) as (pos' & ->).
    exists pos'. reflexivity.
Qed.

(** The composites of the self-test that can be accepted. *)
Lemma accepted_basic_composite (fuel : nat) (c : Z) tape (pos pos' : nat) :
  (7 <= fuel)%nat -> In c Script.basic_composites ->
  is_prime_miller_rabin fuel c default_k tape pos = Ok (true, pos') ->
  c = 85 \/ c = 133.
Proof.
  intros Hfuel Hin Hacc. cbn in Hin.
  repeat (destruct Hin as [<- | Hin];
          [first [ left; reflexivity | right; reflexivity
                 | exfalso; apply nine_rejected in Hacc;
                   [discriminate | exact Hfuel]
                 | exfalso; rewrite is_prime_fast_path in Hacc
                     by (intros [H _]; discriminate);
                   discriminate ]|]).
  contradiction.
Qed.

Lemma check_composites_cases (fuel : nat) tape (cs : list Z) :
  (7 <= fuel)%nat -> incl cs Script.basic_composites ->
  forall w, exists returned w',
    Script.check_composites fuel cs tape w = Ok (returned, w')
    /\ ((returned = None /\ Script.stdout w' = Script.stdout w)
        \/ (returned = Some false
            /\ exists c, (c = 85 \/ c = 133)
                 /\ Script.stdout w'
                    = Script.stdout w ++ [Script.composite_message c])).
Proof.
  intros Hfuel. induction cs as [|c cs IH]; intros Hincl w.
  - exists None, w. split; [reflexivity | left; auto].
  - cbn [Script.check_composites]. unfold Script.io_bind at 1, Script.run.
    assert (Hc : In c Script.basic_composites) by (apply Hincl; left; reflexivity).
    assert (Hf : enough_fuel fuel c).
    { unfold enough_fuel. cbn in Hc.
      repeat (destruct Hc as [<- | Hc]; [cbn; lia|]). contradiction. }
    destruct (is_prime_completes fuel c default_k tape (Script.gen_pos w) Hf)
      as (b & pos1 & E). rewrite E.
    destruct b.
    + unfold Script.io_bind, Script.print, Script.io_ret. cbn.
      eexists. eexists. split; [reflexivity|]. right. split; [reflexivity|].
      exists c. split; [|reflexivity].
      apply (accepted_basic_composite fuel c tape _ _ Hfuel Hc E).
    + destruct (IH (fun x Hx => Hincl x (or_intror Hx))
                   (Script.World pos1 (Script.stdout w)))
        as (returned & w' & -> & Hres).
      exists returned, w'. split; [reflexivity | exact Hres].
Qed.

Lemma rounds_cases (fuel : nat) tape (count : nat) :
  (7 <= fuel)%nat ->
  forall w, exists b w',
    Script.rounds fuel count tape w = Ok (b, w')
    /\ ((b = true /\ Script.stdout w' = Script.stdout w)
        \/ (b = false
            /\ exists c, (c = 85 \/ c = 133)
                 /\ Script.stdout w'
                    = Script.stdout w ++ [Script.composite_message c])).
Proof.
  intros Hfuel. induction count as [|count IH]; intros w.
  - exists true, w. split; [reflexivity | left; auto].
  - cbn [Script.rounds]. unfold Script.io_bind at 1.
    destruct (check_primes_silent fuel tape basic_primes Hfuel
                (incl_refl _) w) as (pos1 & ->).
    unfold Script.io_bind at 1.
    destruct (check_composites_cases fuel tape Script.basic_composites Hfuel
                (incl_refl _) (Script.World pos1 (Script.stdout w)))
      as (returned & w1 & -> & [[-> Hout] | [-> Hout]]).
    + destruct (IH w1) as (b & w' & -> & Hres).
      exists b, w'. split; [reflexivity|].
      cbn [Script.stdout] in Hout. rewrite Hout in Hres. exact Hres.
    + exists false, w1. split; [reflexivity | right; split; [reflexivity|]].
      exact Hout.
Qed.

(** X10: on every generator the self-test completes, and in one of two
    ways: it returns [True] and has printed nothing, or it returns [False]
    and has printed one line, which blames [85] or [133], the two
    composites of its list that have strong liars in the range of the draw.
    It never blames a prime, nor another composite. *)
Theorem do_basic_tests_outcomes (fuel : nat) tape (w : Script.world) :
  (7 <= fuel)%nat ->
  exists b w',
    Script.do_basic_tests fuel tape w = Ok (b, w')
    /\ ((b = true /\ Script.stdout w' = Script.stdout w)
        \/ (b = false
            /\ exists c, (c = 85 \/ c = 133)
                 /\ Script.stdout w'
                    = Script.stdout w ++ [Script.composite_message c])).
Proof. intros Hfuel. apply rounds_cases. exact Hfuel. Qed.

Lemma do_basic_tests_outcomes_witness :
  exists b w',
    Script.do_basic_tests 7 zero_tape (Script.World 0 []) = Ok (b, w')
    /\ ((b = true /\ Script.stdout w' = Script.stdout (Script.World 0 []))
        \/ (b = false
            /\ exists c, (c = 85 \/ c = 133)
                 /\ Script.stdout w'
                    = Script.stdout (Script.World 0 [])
                      ++ [Script.composite_message c])).
Proof.
  apply (do_basic_tests_outcomes 7%nat zero_tape (Script.World 0 [])).
  apply le_n.
Defined.

(** X11: both outcomes occur.  On the generator that always gives [0] (the
    witness [2]) the self-test succeeds after [12830] draws; on the one
    that always gives [11] it fails in the first round, after [1409]
    draws, because [13] is a strong liar of [85]. *)
Theorem do_basic_tests_both_ways :
  Script.do_basic_tests 7 zero_tape (Script.World 0 [])
  = Ok (true, Script.World (Z.to_nat 12830) [])
  /\ Script.do_basic_tests 7 (fun _ => 11) (Script.World 0 [])
     = Ok (false, Script.World (Z.to_nat 1409) [Script.composite_message 85]).
Proof. split; vm_compute; reflexivity. Qed.

(** ** The script *)

(** X12: on every generator the script completes and prints exactly two
    lines.  The first is the line of success when the self-test has
    succeeded, and else the line of the self-test that blames [85] or
    [133]; the second reports the verdict of the program on
    [belphegors_prime]. *)
Theorem main_prints_two_lines (fuel : nat) tape (w : Script.world) :
  (99 <= fuel)%nat ->
  exists (first : String.string) (b : bool) (w' : Script.world),
    Script.main fuel tape w = Ok (tt, w')
    /\ Script.stdout w'
       = Script.stdout w
         ++ [first; Script.number_message Script.belphegors_prime b]
    /\ (first = Script.success_message
        \/ first = Script.composite_message 85
        \/ first = Script.composite_message 133).
Proof.
  intros Hfuel. unfold Script.main. unfold Script.io_bind at 1.
  destruct (rounds_cases fuel tape 10 ltac:(lia) w)
    as (ok & w1 & E & Hres).
  unfold Script.do_basic_tests. rewrite E.
  assert (Hf : enough_fuel fuel Script.belphegors_prime).
  { unfold enough_fuel.
    replace (Z.log2 Script.belphegors_prime) with 99 by (vm_compute; reflexivity).
    lia. }
  destruct Hres as [[-> Hout] | [-> (c & Hc & Hout)]].
  - unfold Script.io_bind at 1, Script.print at 1.
    unfold Script.io_bind, Script.run. cbn [Script.gen_pos Script.stdout].
    destruct (is_prime_completes fuel Script.belphegors_prime default_k tape
                (Script.gen_pos w1) Hf) as (b & pos' & ->).
    unfold Script.print. cbn [Script.gen_pos Script.stdout].
    exists Script.success_message, b. eexists. split; [reflexivity|].
    cbn [Script.stdout]. rewrite Hout, <- app_assoc. split; [reflexivity | auto].
  - unfold Script.io_bind at 1, Script.io_ret at 1.
    unfold Script.io_bind, Script.run.
    destruct (is_prime_completes fuel Script.belphegors_prime default_k tape
                (Script.gen_pos w1) Hf) as (b & pos' & ->).
    unfold Script.print. cbn [Script.gen_pos Script.stdout].
    exists (Script.composite_message c), b. eexists. split; [reflexivity|].
    cbn [Script.stdout]. rewrite Hout, <- app_assoc.
    split; [reflexivity | destruct Hc as [-> | ->]; auto].
Qed.

Lemma main_prints_two_lines_witness :
  exists (first : String.string) (b : bool) (w' : Script.world),
    Script.main 99 zero_tape (Script.World 0 []) = Ok (tt, w')
    /\ Script.stdout w'
       = Script.stdout (Script.World 0 [])
         ++ [first; Script.number_message Script.belphegors_prime b]
    /\ (first = Script.success_message
        \/ first = Script.composite_message 85
        \/ first = Script.composite_message 133).
Proof.
  apply (main_prints_two_lines 99%nat zero_tape (Script.World 0 [])).
  apply le_n.
Defined.

(** ** The cost in draws *)

Lemma rand_test_one_draw (fuel : nat) (n s r : Z) tape (pos : nat) b pos' :
  miller_rabin_rand_test fuel n s r tape pos = Ok (b, pos') -> pos' = S pos.
Proof.
  unfold miller_rabin_rand_test, bind, randrange, lift.
  destruct (2 <? n - 1); [|discriminate].
  destruct (miller_rabin_test_with _ _ _ _ _); try discriminate.
  intros [= _ <-]. reflexivity.
Qed.

Lemma trials_draws (fuel : nat) (n s r : Z) tape (count : nat) :
  forall pos b pos',
    is_prime_trials fuel count n s r tape pos = Ok (b, pos') ->
    (pos <= pos' <= pos + count)%nat
    /\ (b = true -> pos' = (pos + count)%nat).
Proof.
  induction count as [|count IH]; intros pos b pos'; cbn [is_prime_trials].
  - intros [= <- <-]. lia.
  - unfold bind.
    destruct (miller_rabin_rand_test fuel n s r tape pos) as [[b1 q]| |] eqn:E;
      try discriminate.
    apply rand_test_one_draw in E. subst q.
    destruct (negb b1).
    + intros [= <- <-]. split; [lia | discriminate].
    + intros H. apply IH in H. destruct H as [Hle Htrue].
      split; [lia | intros Hb; rewrite (Htrue Hb); lia].
Qed.

(** X13: whatever [n], [k], the budget and the generator, a run that
    returns has read at most [max k 0] cells of the generator; an answer
    [true] has cost exactly that many, unless [n] is [2] or [3], which cost
    none. *)
Theorem draws_bounded (fuel : nat) (n k : Z) tape (pos : nat) b pos' :
  is_prime_miller_rabin fuel n k tape pos = Ok (b, pos') ->
  (pos <= pos' <= pos + Z.to_nat (Z.max k 0))%nat
  /\ (b = true -> n = 2 \/ n = 3 \/ pos' = (pos + Z.to_nat (Z.max k 0))%nat).
Proof.
  replace (Z.to_nat (Z.max k 0)) with (range_len k) by (unfold range_len; lia).
  unfold is_prime_miller_rabin.
  destruct (Z.eqb_spec n 2) as [->|]; [intros [= <- <-]; split; [lia | auto]|].
  destruct (Z.eqb_spec n 3) as [->|]; [intros [= <- <-]; split; [lia | auto]|].
  cbn [orb].
  destruct ((n <=? 1) || (n mod 2 =? 0));
    [intros [= <- <-]; split; [lia | discriminate]|].
  unfold bind, lift.
  destruct (find_miller_rabin_r_s fuel n) as [[s r]| |]; try discriminate.
  intros H. apply trials_draws in H. destruct H as [Hle Htrue].
  split; [exact Hle | auto].
Qed.

Lemma draws_bounded_witness :
  (0 <= 4 <= 0 + Z.to_nat (Z.max 4 0))%nat
  /\ (true = true -> 13 = 2 \/ 13 = 3 \/ 4%nat = (0 + Z.to_nat (Z.max 4 0))%nat).
Proof.
  apply (draws_bounded 5%nat 13 4 zero_tape 0%nat true 4%nat). reflexivity.
Defined.
